(** * cutplace.ranges: a shallow embedding of [Range] and its properties

    The development follows [cutplace/ranges.py]:

    - Python text is a list of Unicode code points ([list Z]), so that the
      single-character ellipsis U+2026 and [ord] are what they are in the
      source;
    - integers are [Z] (Python integers are unbounded);
    - exceptions are values of an error type, threaded through a small
      error monad;
    - [Range.__init__] is [Range_init], [Range.validate] is [validate],
      [Range.__str__] is [Range_str], and so on. *)

From Stdlib Require Import ZArith List String Ascii Lia Bool.
From Stdlib Require Import DecimalFacts DecimalPos DecimalN.
From stdpp Require Import base option list gmap.

Import ListNotations.
Local Open Scope Z_scope.

(* ===================================================================== *)
(** * Python text                                                         *)
(* ===================================================================== *)

(** A Python (unicode) string is the list of its code points. *)
Abbreviation pystr := (list Z).

(** [u "..."] is the Python text of an ASCII literal. *)
Definition u (s : string) : pystr :=
  map (fun a => Z.of_N (N_of_ascii a)) (list_ascii_of_string s).

(** [ELLIPSIS = '…'], the three dots as a single character. *)
Definition ELLIPSIS : pystr := [8230].

Definition pystr_eqb (a b : pystr) : bool := bool_decide (a = b).

(** Characters [str.strip()] removes: the Unicode white space. *)
Definition isspace (c : Z) : bool :=
  ((9 <=? c) && (c <=? 13)) || ((28 <=? c) && (c <=? 32))
  || (c =? 133) || (c =? 160) || (c =? 5760)
  || ((8192 <=? c) && (c <=? 8202))
  || (c =? 8232) || (c =? 8233) || (c =? 8239) || (c =? 8287) || (c =? 12288).

(** Truth value of [text.strip()]: some character is not white space. *)
Definition strip_nonempty (text : pystr) : bool :=
  existsb (fun c => negb (isspace c)) text.

(** [text.replace('...', ELLIPSIS)]: leftmost, non-overlapping occurrences
    of three full stops (code 46) become U+2026. *)
Fixpoint replace_dots (text : pystr) : pystr :=
  match text with
  | [] => []
  | c1 :: rest1 =>
      match rest1 with
      | c2 :: c3 :: rest3 =>
          if (c1 =? 46) && (c2 =? 46) && (c3 =? 46)
          then 8230 :: replace_dots rest3
          else c1 :: replace_dots rest1
      | _ => c1 :: replace_dots rest1
      end
  end.

(** [s.lower()] on the ASCII letters (the keys of the name table are ASCII). *)
Definition lower_char (c : Z) : Z :=
  if (65 <=? c) && (c <=? 90) then c + 32 else c.

Definition lower (s : pystr) : pystr := map lower_char s.

(* ===================================================================== *)
(** * Integers and their text                                             *)
(* ===================================================================== *)

Definition isdigit (c : Z) : bool := (48 <=? c) && (c <=? 57).
Definition isoctdigit (c : Z) : bool := (48 <=? c) && (c <=? 55).
Definition isbindigit (c : Z) : bool := (c =? 48) || (c =? 49).
Definition ishexdigit (c : Z) : bool :=
  isdigit c || ((97 <=? c) && (c <=? 102)) || ((65 <=? c) && (c <=? 70)).

(** Value of one digit in a base up to 16, [None] for other characters. *)
Definition digit_value (c : Z) : option Z :=
  if isdigit c then Some (c - 48)
  else if (97 <=? c) && (c <=? 102) then Some (c - 87)
  else if (65 <=? c) && (c <=? 70) then Some (c - 55)
  else None.

(** Left-to-right positional reading; [None] is Python's [ValueError]. *)
Fixpoint int_digits (base : Z) (acc : Z) (s : pystr) : option Z :=
  match s with
  | [] => Some acc
  | c :: rest =>
      match digit_value c with
      | Some d => if d <? base then int_digits base (acc * base + d) rest
                  else None
      | None => None
      end
  end.

(** [int(s, base)] on the text of a NUMBER token.  Such a text carries no
    sign and no blanks; a text that is empty or holds a character that is
    not a digit of the base raises [ValueError]. *)
Definition int_of (s : pystr) (base : Z) : option Z :=
  match s with
  | [] => None
  | _ => int_digits base 0 s
  end.

(** The digits of a decimal numeral, most significant first. *)
Fixpoint pystr_of_uint (d : Decimal.uint) : pystr :=
  match d with
  | Decimal.Nil => []
  | Decimal.D0 r => 48 :: pystr_of_uint r
  | Decimal.D1 r => 49 :: pystr_of_uint r
  | Decimal.D2 r => 50 :: pystr_of_uint r
  | Decimal.D3 r => 51 :: pystr_of_uint r
  | Decimal.D4 r => 52 :: pystr_of_uint r
  | Decimal.D5 r => 53 :: pystr_of_uint r
  | Decimal.D6 r => 54 :: pystr_of_uint r
  | Decimal.D7 r => 55 :: pystr_of_uint r
  | Decimal.D8 r => 56 :: pystr_of_uint r
  | Decimal.D9 r => 57 :: pystr_of_uint r
  end.

(** [str(n)] for a natural number. *)
Definition str_N (n : N) : pystr := pystr_of_uint (N.to_uint n).

(** ["%s" % n] for an integer: decimal digits, a leading hyphen (code 45)
    when negative. *)
Definition str_int (n : Z) : pystr :=
  if n <? 0 then 45 :: str_N (Z.abs_N n) else str_N (Z.abs_N n).

(* ===================================================================== *)
(** * Tokens                                                              *)
(* ===================================================================== *)

(** Token types of Python's [token] and [tokenize] modules. *)
Inductive toktype : Type :=
| ENDMARKER | NAME | NUMBER | STRING | NEWLINE | INDENT | DEDENT
| OP | ERRORTOKEN | COMMENT | NL.

Global Instance toktype_eq_dec : EqDecision toktype.
Proof. solve_decision. Defined.

(** A token as the source reads it: [tok[0]] is its type and [tok[1]] its
    text. *)
Record token : Type := Token { ttype : toktype; tvalue : pystr }.

Global Instance token_eq_dec : EqDecision token.
Proof. solve_decision. Defined.

(** Modelled from the spec: [_tools.is_eof_token] (the module
    [cutplace._tools] is missing); the token stream is "terminated by an
    EndOfInput token", the ENDMARKER of Python's tokenizer. *)
Definition is_eof_token (t : token) : bool :=
  bool_decide (ttype t = ENDMARKER).

(** Modelled from the spec: [_tools.is_comma_token] (the module
    [cutplace._tools] is missing); the comma is the punctuation token that
    separates the items (code 44). *)
Definition is_comma_token (t : token) : bool :=
  bool_decide (ttype t = OP) && pystr_eqb (tvalue t) [44].

(* ===================================================================== *)
(** * The tokenizer                                                       *)
(* ===================================================================== *)

(** [generate_tokens] models [tokenize.generate_tokens] of the Python
    standard library (the syntax of Python 2.7, which the package
    targets) on the text handed to it by [Range.__init__].

    The model covers numbers (decimal, octal, binary and hexadecimal
    integers, floats, imaginary literals, the long suffix), names, strings
    with their prefixes and backslash escapes (with one quote or three,
    continued over lines), operators, comments, blanks, a backslash that
    joins two lines, the INDENT token of a first line that starts with
    blanks and the final DEDENT and ENDMARKER.  Any other character is an
    ERRORTOKEN of its own, and so is a blank in front of it.  Where the
    tokenizer raises [tokenize.TokenError] (the text ends inside a
    string, inside brackets or after a backslash and a line break) the
    list of tokens stops without an end marker.

    The generator is read one token at a time, and the loop of
    [Range.__init__] fails at the first NEWLINE, NL or COMMENT token and
    at the ERRORTOKEN of a broken string ([tokens_loop_line_break]
    below), so what the generator would yield after such a token is never
    asked for.  There the model is kept simple: it does not follow the
    indentation of the lines after a line break, nor the empty NL token
    after a comment that ends the text. *)

Definition mk (ty : toktype) (v : pystr) : token := Token ty v.

(** Number of leading characters of [s] that satisfy [p]. *)
Fixpoint span_len (p : Z -> bool) (s : pystr) : nat :=
  match s with
  | c :: rest => if p c then S (span_len p rest) else O
  | [] => O
  end.

Definition starts_with (p : Z -> bool) (s : pystr) : bool :=
  match s with
  | c :: _ => p c
  | [] => false
  end.

Definition is_char (k : Z) (c : Z) : bool := c =? k.
Definition is_either (k1 k2 : Z) (c : Z) : bool := (c =? k1) || (c =? k2).

(** Blanks between tokens: space, tab and form feed. *)
Definition is_blank (c : Z) : bool := (c =? 32) || (c =? 9) || (c =? 12).

Definition is_name_start (c : Z) : bool :=
  ((97 <=? c) && (c <=? 122)) || ((65 <=? c) && (c <=? 90)) || (c =? 95).

Definition is_name_char (c : Z) : bool := is_name_start c || isdigit c.

Definition is_quote (c : Z) : bool := (c =? 39) || (c =? 34).

(** Length of [[eE][-+]?\d+] at the head of [s], 0 when absent. *)
Definition exponent_len (s : pystr) : nat :=
  match s with
  | e :: rest =>
      if is_either 101 69 e then
        match rest with
        | sg :: rest' =>
            if is_either 45 43 sg then
              match span_len isdigit rest' with
              | O => O
              | n => (2 + n)%nat
              end
            else
              match span_len isdigit rest with
              | O => O
              | n => (1 + n)%nat
              end
        | [] => O
        end
      else O
  | [] => O
  end.

(** Length of a float literal at the head of [s]:
    [(\d+\.\d*|\.\d+)([eE][-+]?\d+)?] or [\d+[eE][-+]?\d+];
    0 when absent. *)
Definition float_len (s : pystr) : nat :=
  let nd := span_len isdigit s in
  let after := drop nd s in
  if starts_with (is_char 46) after then
    let frac := drop 1 after in
    let nf := span_len isdigit frac in
    match nd, nf with
    | O, O => O
    | _, _ => (nd + 1 + nf + exponent_len (drop nf frac))%nat
    end
  else
    match nd, exponent_len after with
    | O, _ => O
    | _, O => O
    | _, ne => (nd + ne)%nat
    end.

(** One more character when the long suffix [l] or [L] follows. *)
Definition with_long_suffix (n : nat) (s : pystr) : nat :=
  if starts_with (is_either 108 76) (drop n s) then S n else n.

(** Length of an integer literal at the head of [s]; 0 when absent. *)
Definition integer_len (s : pystr) : nat :=
  match s with
  | [] => O
  | c :: rest =>
      let digits := drop 1 rest in
      if negb (isdigit c) then O
      else if negb (c =? 48) then
        with_long_suffix (1 + span_len isdigit rest) s
      else if starts_with (is_either 120 88) rest
              && starts_with ishexdigit digits then
        with_long_suffix (2 + span_len ishexdigit digits) s
      else if starts_with (is_either 98 66) rest
              && starts_with isbindigit digits then
        with_long_suffix (2 + span_len isbindigit digits) s
      else if starts_with (is_either 111 79) rest
              && starts_with isoctdigit digits then
        (2 + span_len isoctdigit digits)%nat
      else with_long_suffix (1 + span_len isoctdigit rest) s
  end.

(** Length of the NUMBER token at the head of [s] (0 when there is none):
    imaginary, then float, then integer, as the tokenizer tries them. *)
Definition number_len (s : pystr) : nat :=
  let nd := span_len isdigit s in
  match nd with
  | S _ =>
      if starts_with (is_either 106 74) (drop nd s) then S nd
      else match float_len s with
           | O => integer_len s
           | nf => if starts_with (is_either 106 74) (drop nf s)
                   then S nf else nf
           end
  | O =>
      match float_len s with
      | O => O
      | nf => if starts_with (is_either 106 74) (drop nf s)
              then S nf else nf
      end
  end.

(** What the tokenizer finds where a string may start. *)
Inductive quoted : Type :=
| Closed (n : nat)
    (* a STRING token of [n] characters *)
| Broken (n : nat)
    (* an ERRORTOKEN of [n] characters: a string that was continued with a
       backslash at the end of a line and is not closed on the next one *)
| Unfinished
    (* the text ends inside the string: [tokenize.TokenError] *)
| NoString.
    (* no string starts here *)

Definition shift (k : nat) (r : quoted) : quoted :=
  match r with
  | Closed n => Closed (k + n)
  | Broken n => Broken (k + n)
  | Unfinished => Unfinished
  | NoString => NoString
  end.

(** How the line read so far ends: with a backslash, with a backslash and
    a carriage return, or otherwise. *)
Inductive line_end : Type := Plain | Slash | SlashCr.

(** After the opening quote [q] of a string with single quotes.  On the
    line of the opening quote the string ends with the closing quote or is
    continued by a backslash at the end of the line; [cont] tells that the
    scan is on a later line, where a line that neither closes the string
    nor ends with a backslash makes the whole an ERRORTOKEN.  A backslash
    escapes the character after it, except a line feed. *)
Fixpoint single_scan (q : Z) (cont : bool) (ending : line_end) (s : pystr)
    : quoted :=
  match s with
  | [] => if cont then Broken O else NoString
  | c :: rest =>
      if c =? q then Closed 1
      else if c =? 10 then
        if negb cont then NoString
        else
          match ending with
          | Plain => Broken 1
          | _ =>
              match rest with
              | [] => Unfinished
              | _ :: _ => shift 1 (single_scan q true Plain rest)
              end
          end
      else if c =? 92 then
        match rest with
        | [] => if cont then Broken 1 else NoString
        | e :: rest' =>
            if e =? 10 then
              match rest' with
              | [] => Unfinished
              | _ :: _ => shift 2 (single_scan q true Plain rest')
              end
            else
              let after := if e =? 92 then Slash else Plain in
              match rest' with
              | e2 :: rest'' =>
                  if (e =? 13) && (e2 =? 10) then
                    match rest'' with
                    | [] => Unfinished
                    | _ :: _ => shift 3 (single_scan q true Plain rest'')
                    end
                  else shift 2 (single_scan q cont after rest')
              | [] => shift 2 (single_scan q cont after rest')
              end
        end
      else
        let after := match ending with
                     | Slash => if c =? 13 then SlashCr else Plain
                     | _ => Plain
                     end in
        shift 1 (single_scan q cont after rest)
  end.

(** After the three opening quotes [q] of a triple-quoted string, which
    may span lines: up to the next three quotes in a row; a backslash
    escapes the character after it. *)
Fixpoint triple_scan (q : Z) (s : pystr) : quoted :=
  match s with
  | [] => Unfinished
  | c :: rest =>
      if c =? 92 then
        match rest with
        | [] => Unfinished
        | _ :: rest' => shift 2 (triple_scan q rest')
        end
      else if (c =? q) && starts_with (is_char q) rest
              && starts_with (is_char q) (drop 1 rest) then Closed 3
      else shift 1 (triple_scan q rest)
  end.

(** Length of the string prefix [[uUbB]?[rR]?] at the head of [s]. *)
Definition string_prefix_len (s : pystr) : nat :=
  let is_ub c := (c =? 117) || (c =? 85) || (c =? 98) || (c =? 66) in
  let is_r := is_either 114 82 in
  match s with
  | a :: rest =>
      if is_ub a then (if starts_with is_r rest then 2%nat else 1%nat)
      else if is_r a then 1%nat else O
  | [] => O
  end.

(** The string at the head of [s]: an optional prefix, then three quotes
    or one. *)
Definition string_scan (s : pystr) : quoted :=
  let np := string_prefix_len s in
  match drop np s with
  | q :: body =>
      if is_quote q then
        if starts_with (is_char q) body && starts_with (is_char q) (drop 1 body)
        then shift (np + 3) (triple_scan q (drop 2 body))
        else shift (np + 1) (single_scan q false Plain body)
      else NoString
  | [] => NoString
  end.

(** Length of the operator at the head of [s]; 0 when there is none. *)
Definition op_len (s : pystr) : nat :=
  let is_eq := is_char 61 in
  let plain c :=
    (c =? 43) || (c =? 45) || (c =? 42) || (c =? 47) || (c =? 37)
    || (c =? 38) || (c =? 124) || (c =? 94) || (c =? 61) || (c =? 60)
    || (c =? 62) in
  let single c :=
    (c =? 126) || (c =? 40) || (c =? 41) || (c =? 91) || (c =? 93)
    || (c =? 123) || (c =? 125) || (c =? 58) || (c =? 59) || (c =? 46)
    || (c =? 44) || (c =? 96) || (c =? 64) in
  match s with
  | c :: rest =>
      let doubled := starts_with (is_char c) rest in
      if doubled && ((c =? 42) || (c =? 62) || (c =? 60) || (c =? 47)) then
        if starts_with is_eq (drop 1 rest) then 3%nat else 2%nat
      else if (c =? 60) && starts_with (is_char 62) rest then 2%nat
      else if (c =? 33) && starts_with is_eq rest then 2%nat
      else if plain c then (if starts_with is_eq rest then 2%nat else 1%nat)
      else if single c then 1%nat
      else O
  | [] => O
  end.

(** A backslash followed by a line break, and its length. *)
Definition joined_len (s : pystr) : nat :=
  match s with
  | c :: rest =>
      if negb (c =? 92) then O
      else if starts_with (is_char 10) rest then 2%nat
      else if starts_with (is_char 13) rest
              && starts_with (is_char 10) (drop 1 rest) then 3%nat
      else O
  | [] => O
  end.

(** Number of characters of the line at the head of [s], its line feed
    included. *)
Fixpoint line_len (s : pystr) : nat :=
  match s with
  | [] => O
  | c :: rest => if c =? 10 then 1%nat else S (line_len rest)
  end.

(** [s.rstrip('\r\n')] for a text without line feed: the carriage
    returns at the end are removed. *)
Fixpoint rstrip_cr (s : pystr) : pystr :=
  match s with
  | [] => []
  | c :: rest =>
      match rstrip_cr rest with
      | [] => if c =? 13 then [] else [c]
      | tail => c :: tail
      end
  end.

(** What the tokenizer finds at the head of a text. *)
Inductive scanned : Type :=
| Found (t : token) (n : nat)
    (* the token [t], of [n] characters *)
| Joined (n : nat)
    (* a backslash and a line break, [n] characters: the next line
       continues this one, no token *)
| Failed.
    (* [tokenize.TokenError]: the text ends inside a string or after a
       backslash and a line break *)

(** The token at the head of the text [s], which does not start with a
    blank.  [fresh] tells that a statement starts with this line and that
    the line holds no token yet, [nested] that a bracket is open. *)
Definition scan_token (fresh nested : bool) (s : pystr) : scanned :=
  match s with
  | [] => Found (mk ENDMARKER []) O
  | c :: rest =>
      if c =? 35 then
        let body := take (span_len (fun x => negb (x =? 10)) s) s in
        let comment :=
          if fresh then rstrip_cr body
          else take (span_len (fun x => negb ((x =? 10) || (x =? 13))) s) s in
        Found (mk COMMENT comment) (length comment)
      else if c =? 10 then
        Found (mk (if fresh || nested then NL else NEWLINE) [c]) 1%nat
      else if (c =? 13) && starts_with (is_char 10) rest then
        Found (mk (if fresh || nested then NL else NEWLINE) (take 2 s)) 2%nat
      else if fresh && (c =? 13) then
        Found (mk NL (take (line_len s) s)) (line_len s)
      else
        match joined_len s with
        | S n =>
            match drop (S n) s with
            | [] => Failed
            | _ :: _ => Joined (S n)
            end
        | O =>
            match number_len s with
            | S n => Found (mk NUMBER (take (S n) s)) (S n)
            | O =>
                match op_len s with
                | S n => Found (mk OP (take (S n) s)) (S n)
                | O =>
                    match string_scan s with
                    | Closed n => Found (mk STRING (take n s)) n
                    | Broken n => Found (mk ERRORTOKEN (take n s)) n
                    | Unfinished => Failed
                    | NoString =>
                        if is_name_start c then
                          let n := S (span_len is_name_char rest) in
                          Found (mk NAME (take n s)) n
                        else Found (mk ERRORTOKEN [c]) 1%nat
                    end
                end
            end
        end
  end.

(** Whether a token, a comment, a line break or a continuation starts at
    the head of [s], or the text ends there: blanks are skipped before
    these, and are ERRORTOKENs of their own before anything else. *)
Definition begins_token (s : pystr) : bool :=
  match s with
  | [] => true
  | c :: rest =>
      (c =? 35) || (c =? 10) || ((c =? 13) && starts_with (is_char 10) rest)
      || negb (Nat.eqb (joined_len s) O)
      || isdigit c
      || negb (Nat.eqb (op_len s) O)
      || is_name_start c
      || match string_scan s with
         | NoString => false
         | _ => true
         end
  end.

(** The bracket level [parenlev] after the token [t]. *)
Definition level_after (depth : Z) (t : token) : Z :=
  match ttype t, tvalue t with
  | OP, [c] =>
      if (c =? 40) || (c =? 91) || (c =? 123) then depth + 1
      else if (c =? 41) || (c =? 93) || (c =? 125) then depth - 1
      else depth
  | _, _ => depth
  end.

(** The tokens of [s], followed by [final] when the text is read to its
    end; the list stops short where the tokenizer raises
    [tokenize.TokenError].  [skip] counts the characters that still belong
    to the token emitted last, [depth] is the bracket level. *)
Fixpoint tokens_from (final : list token) (skip : nat) (fresh : bool)
    (depth : Z) (s : pystr) : list token :=
  match s with
  | [] => if depth =? 0 then final else []
  | c :: rest =>
      match skip with
      | S k => tokens_from final k fresh depth rest
      | O =>
          if is_blank c then
            if fresh || begins_token (drop (span_len is_blank rest) rest)
            then tokens_from final O fresh depth rest
            else mk ERRORTOKEN [c] :: tokens_from final O false depth rest
          else
            match scan_token fresh (0 <? depth) s with
            | Found t n =>
                let depth' := level_after depth t in
                let fresh' :=
                  match ttype t with
                  | NL | NEWLINE => depth' =? 0
                  | COMMENT => fresh
                  | _ => false
                  end in
                t :: tokens_from final (pred n) fresh' depth' rest
            | Joined n => tokens_from final (pred n) false depth rest
            | Failed => []
            end
      end
  end.

(** Column reached by the leading blanks of a line. *)
Definition indent_column (ws : pystr) : Z :=
  fold_left (fun col c =>
               if c =? 32 then col + 1
               else if c =? 9 then (col / 8 + 1) * 8
               else 0) ws 0.

(** The tokens the generator yields for [text], in order.  The list ends
    with the end marker, unless the generator raises
    [tokenize.TokenError]: then it holds the tokens yielded before. *)
Definition generate_tokens (text : pystr) : list token :=
  let n := span_len is_blank text in
  let ws := take n text in
  let body := drop n text in
  let indented :=
    (0 <? indent_column ws)
    && starts_with (fun c => negb ((c =? 35) || (c =? 10) || (c =? 13))) body in
  if indented then
    mk INDENT ws :: tokens_from [mk DEDENT []; mk ENDMARKER []] O false 0 body
  else tokens_from [mk ENDMARKER []] O true 0 body.

(* ===================================================================== *)
(** * Exceptions and the error monad                                      *)
(* ===================================================================== *)

(** The messages of [errors.InterfaceError] raised by [Range.__init__],
    one constructor per message, with the values the message formats. *)
Inductive InterfaceError : Type :=
| NumberMustBeInteger (next_value : pystr)
    (* number must be an integer but is: %r *)
| SymbolicNameUnknown (next_value : pystr)
    (* symbolic name %r must be one of: %s *)
| SingleCharacterExpected (next_value : pystr)
    (* text for range must contain a single character but is: %r *)
| AtMostLowerAndUpper (next_value : pystr)
    (* range must have at most lower and upper limit but found another
       number: %r *)
| MustBeFollowedByEllipsis (next_value : pystr)
    (* number must be followed by ellipsis (...) but found: %r *)
| HyphenMustBeFollowedByNumber (next_value : pystr)
    (* hyphen (-) must be followed by number but found: %r *)
| HyphenAtEnd
    (* hyphen (-) at end must be followed by number *)
| RangeMustBeSpecifiedUsing (next_value : pystr) (next_type : toktype)
    (* range must be specified using integer numbers, text, symbols and
       ellipsis (...) but found: %r [token type: %r] *)
| EllipsisWithoutNumber
    (* ellipsis (...) must be preceded and/or succeeded by number *)
| LowerGreaterThanUpper (lower upper : Z)
    (* lower range %d must be greater or equal to upper range %d *)
| ItemsOverlap (some other : pystr)
    (* range items must not overlap: %r and %r *).

(** What [Range.__init__] and the rendering can raise. *)
Inductive exn : Type :=
| Interface (e : InterfaceError)
| AssertionError
| StopIteration
| TokenError.

Inductive result (E A : Type) : Type :=
| OK (a : A)
| Raise (e : E).
Arguments OK {E A} a.
Arguments Raise {E A} e.

Definition bind {E A B} (r : result E A) (k : A -> result E B) : result E B :=
  match r with
  | OK a => k a
  | Raise e => Raise e
  end.

Notation "x <- r ;; k" := (bind r (fun x => k))
  (at level 100, r at next level, right associativity).

Definition assert {E} (b : bool) (e : E) : result E unit :=
  if b then OK tt else Raise e.

(* ===================================================================== *)
(** * Range items                                                         *)
(* ===================================================================== *)

(** An item is the tuple [(lower, upper)]; either side can be [None]. *)
Abbreviation item := (option Z * option Z)%type.

(** [Range._item_contains(item, value)]; [value] may be [None]. *)
Definition _item_contains (it : item) (value : option Z) : bool :=
  match value with
  | None => false
  | Some v =>
      match it with
      | (None, None) => true
      | (None, Some upper) => v <=? upper
      | (Some lower, None) => v >=? lower
      | (Some lower, Some upper) => (v >=? lower) && (v <=? upper)
      end
  end.

(** [Range._items_overlap(some, other)]. *)
Definition _items_overlap (some other : item) : bool :=
  let lower := fst other in
  let upper := snd other in
  _item_contains some lower || _item_contains some upper.

(** [Range._repr_item(item)] for an item that is not [None]. *)
Definition _repr_item (it : item) : result exn pystr :=
  match it with
  | (None, upper) =>
      match upper with
      | None => Raise AssertionError
      | Some up => OK (58 :: str_int up)
      end
  | (Some lower, None) => OK (str_int lower ++ [58])
  | (Some lower, Some upper) =>
      if lower =? upper then OK (str_int lower)
      else OK (str_int lower ++ 58 :: str_int upper)
  end.

(** [str(None)]. *)
Definition str_None : pystr := u "None".

(* ===================================================================== *)
(** * Range.__init__                                                      *)
(* ===================================================================== *)

(** The four variables of one turn of the outer loop. *)
Record group : Type := Group {
  g_lower : option Z;
  g_upper : option Z;
  ellipsis_found : bool;
  after_hyphen : bool
}.

Definition group_start : group := Group None None false false.

Record Range : Type := MkRange {
  description : option pystr;
  items : option (list item)
}.

Section Compile.

(** [errors.NAME_TO_ASCII_CODE_MAP]: the table of symbolic names is a
    constant of the module [cutplace.errors], which is missing, so the
    construction takes it as a parameter. *)
Variable NAME_TO_ASCII_CODE_MAP : gmap (list Z) Z.

(** The integer a NAME, NUMBER or STRING token stands for, and the value
    of [next_value] and of [after_hyphen] afterwards. *)
Definition long_value_of (next_type : toktype) (next_value : pystr)
    (hyphen : bool) : result exn (Z * pystr * bool) :=
  match next_type with
  | NUMBER =>
      let '(digits, base) :=
        if pystr_eqb (lower (take 2 next_value)) (u "0x")
        then (drop 2 next_value, 16) else (next_value, 10) in
      match int_of digits base with
      | None => Raise (Interface (NumberMustBeInteger digits))
      | Some long_value =>
          if hyphen then OK (- 1 * long_value, digits, false)
          else OK (long_value, digits, hyphen)
      end
  | NAME =>
      match NAME_TO_ASCII_CODE_MAP !! lower next_value with
      | None => Raise (Interface (SymbolicNameUnknown next_value))
      | Some long_value => OK (long_value, next_value, hyphen)
      end
  | _ (* STRING *) =>
      match next_value with
      | [left_quote; c; right_quote] =>
          _ <- assert (is_quote left_quote) AssertionError ;;
          _ <- assert (is_quote right_quote) AssertionError ;;
          OK (c, next_value, hyphen)
      | _ => Raise (Interface (SingleCharacterExpected next_value))
      end
  end.

(** The body of the inner [while] loop: one token that is neither the end
    nor a comma. *)
Definition item_step (g : group) (next_token : token) : result exn group :=
  let next_type := ttype next_token in
  let next_value := tvalue next_token in
  if bool_decide (next_type = NAME) || bool_decide (next_type = NUMBER)
     || bool_decide (next_type = STRING) then
    found <- long_value_of next_type next_value (after_hyphen g) ;;
    let '(long_value, next_value, hyphen) := found in
    if ellipsis_found g then
      match g_upper g with
      | None => OK (Group (g_lower g) (Some long_value) true hyphen)
      | Some _ => Raise (Interface (AtMostLowerAndUpper next_value))
      end
    else
      match g_lower g with
      | None => OK (Group (Some long_value) (g_upper g) false hyphen)
      | Some _ => Raise (Interface (MustBeFollowedByEllipsis next_value))
      end
  else if after_hyphen g then
    Raise (Interface (HyphenMustBeFollowedByNumber next_value))
  else if bool_decide (next_type = OP) && pystr_eqb next_value [45] then
    OK (Group (g_lower g) (g_upper g) (ellipsis_found g) true)
  else if pystr_eqb next_value ELLIPSIS || pystr_eqb next_value [58] then
    OK (Group (g_lower g) (g_upper g) true (after_hyphen g))
  else Raise (Interface (RangeMustBeSpecifiedUsing next_value next_type)).

(** The inner [while] loop: the tokens of one group.  It returns the
    variables at the end of the group, the token that ended it and the
    tokens not yet read; [next] on an exhausted generator raises
    [StopIteration]. *)
Fixpoint item_loop (g : group) (tokens : list token)
    : result exn (group * token * list token) :=
  match tokens with
  | [] => Raise StopIteration
  | next_token :: tokens' =>
      if negb (is_eof_token next_token) && negb (is_comma_token next_token)
      then g' <- item_step g next_token ;; item_loop g' tokens'
      else OK (g, next_token, tokens')
  end.

(** After the inner loop: the check of a pending hyphen, and "Decide upon
    the result". *)
Definition decide_result (g : group) : result exn (option item) :=
  if after_hyphen g then Raise (Interface HyphenAtEnd)
  else
    match g_lower g with
    | None =>
        match g_upper g with
        | None =>
            if ellipsis_found g then Raise (Interface EllipsisWithoutNumber)
            else OK None
        | Some upper =>
            _ <- assert (ellipsis_found g) AssertionError ;;
            OK (Some (None, Some upper))
        end
    | Some lower =>
        if ellipsis_found g then
          match g_upper g with
          | Some upper =>
              if lower >? upper
              then Raise (Interface (LowerGreaterThanUpper lower upper))
              else OK (Some (Some lower, Some upper))
          | None => OK (Some (Some lower, None))
          end
        else OK (Some (Some lower, Some lower))
    end.

(** The [for item in self._items] loop that looks for an overlap. *)
Fixpoint check_overlap (its : list item) (new : item) : result exn unit :=
  match its with
  | [] => OK tt
  | it :: rest =>
      if _items_overlap it new then
        a <- _repr_item it ;;
        b <- _repr_item new ;;
        Raise (Interface (ItemsOverlap a b))
      else check_overlap rest new
  end.

(** [if result is not None: ...; self._items.append(result)]. *)
Definition append_result (its : list item) (res : option item)
    : result exn (list item) :=
  match res with
  | None => OK its
  | Some new => _ <- check_overlap its new ;; OK (its ++ [new])
  end.

(** The outer [while not end_reached] loop, as one recursion over the
    token stream: [g] holds the variables of the group being read and
    [its] is [self._items].  A token that is the end or a comma closes the
    group; [tokens_loop_item_loop] below shows that this is the nesting of
    the two loops of the source. *)
Fixpoint tokens_loop (its : list item) (g : group) (tokens : list token)
    : result exn (list item) :=
  match tokens with
  | [] => Raise StopIteration
  | next_token :: tokens' =>
      if negb (is_eof_token next_token) && negb (is_comma_token next_token)
      then g' <- item_step g next_token ;; tokens_loop its g' tokens'
      else
        res <- decide_result g ;;
        its' <- append_result its res ;;
        if is_eof_token next_token then OK its'
        else tokens_loop its' group_start tokens'
  end.

(** Whether the generator yielded the end marker as its last token; it
    raised [tokenize.TokenError] otherwise. *)
Definition ends_with_end_marker (tokens : list token) : bool :=
  match last tokens with
  | Some t => is_eof_token t
  | None => false
  end.

(** The result of the loop over the tokens of the generator.  When the
    list of tokens is used up, [next(tokens)] raises what ended the
    generator: [StopIteration] after the end marker,
    [tokenize.TokenError] otherwise. *)
Definition from_tokenizer {A} (tokens : list token) (r : result exn A)
    : result exn A :=
  match r with
  | Raise StopIteration =>
      if ends_with_end_marker tokens then r else Raise TokenError
  | _ => r
  end.

(** [Range(text, default)]. *)
Definition Range_init (text : option pystr) (default : option pystr)
    : result exn Range :=
  _ <- assert (match default with
               | None => true
               | Some d => strip_nonempty d
               end) AssertionError ;;
  let text := option_map replace_dots text in
  let has_text := match text with
                  | Some t => strip_nonempty t
                  | None => false
                  end in
  let '(text, has_text) :=
    match default with
    | Some d => if negb has_text then (Some d, true) else (text, has_text)
    | None => (text, has_text)
    end in
  match text with
  | Some t =>
      if has_text then
        let tokens := generate_tokens t in
        its <- from_tokenizer tokens (tokens_loop [] group_start tokens) ;;
        OK (MkRange (Some t) (Some its))
      else OK (MkRange None None)
  | None => OK (MkRange None None)
  end.

End Compile.

(* ===================================================================== *)
(** * Rendering and validation                                            *)
(* ===================================================================== *)

(** The loop of [Range.__str__]: the items joined with a comma and a
    space. *)
Fixpoint join_items (is_first : bool) (its : list item) : result exn pystr :=
  match its with
  | [] => OK []
  | it :: rest =>
      s <- _repr_item it ;;
      tail <- join_items false rest ;;
      OK ((if is_first then [] else u ", ") ++ s ++ tail)
  end.

(** [Range.__str__]: [if self.items] is false for [None] and for the
    empty list. *)
Definition Range_str (r : Range) : result exn pystr :=
  match items r with
  | Some (it :: rest) => join_items true (it :: rest)
  | _ => OK str_None
  end.

(** [Range.__repr__]. *)
Definition Range_repr (r : Range) : result exn pystr :=
  match items r with
  | Some (_ :: _) => s <- Range_str r ;; OK (u "'" ++ s ++ u "'")
  | _ => OK str_None
  end.

(** What [Range.validate] can raise; [errors.RangeValueError] takes the
    message and the location. *)
Inductive validate_exn (Location : Type) : Type :=
| RangeValueError (message : pystr) (location : option Location)
| ValidateAssertionError.
Arguments RangeValueError {Location} message location.
Arguments ValidateAssertionError {Location}.

(** The [while] loop of [validate]: [is_valid] when it ends. *)
Fixpoint validate_loop (its : list item) (value : Z)
    : result exn bool :=
  match its with
  | [] => OK false
  | (lower, upper) :: rest =>
      match lower, upper with
      | None, None => Raise AssertionError
      | None, Some upper =>
          if value <=? upper then OK true else validate_loop rest value
      | Some lower, None =>
          if value >=? lower then OK true else validate_loop rest value
      | Some lower, Some upper =>
          if (value >=? lower) && (value <=? upper) then OK true
          else validate_loop rest value
      end
  end.

Definition lift_assert {Location A} (r : result exn A)
    : result (validate_exn Location) A :=
  match r with
  | OK a => OK a
  | Raise _ => Raise ValidateAssertionError
  end.

(** [Range.validate(name, value, location)] for an integer [value];
    ["%r" % value] is the decimal text of the integer. *)
Definition validate {Location : Type} (r : Range) (name : pystr) (value : Z)
    (location : option Location) : result (validate_exn Location) unit :=
  _ <- assert (negb (bool_decide (name = []))) ValidateAssertionError ;;
  match items r with
  | None => OK tt
  | Some its =>
      is_valid <- lift_assert (validate_loop its value) ;;
      if is_valid then OK tt
      else
        shown <- lift_assert (Range_repr r) ;;
        Raise (RangeValueError
                 (name ++ u " is " ++ str_int value
                  ++ u " but must be within range: " ++ shown) location)
  end.

(* ===================================================================== *)
(** * Specification-side notions                                          *)
(* ===================================================================== *)

(** The table of the examples: the mnemonic [cr] stands for code 13. *)
Definition example_names : gmap (list Z) Z := {[ u "cr" := 13 ]}.

(** Membership of a value in an item: [(None, u)] accepts [value <= u],
    [(l, None)] accepts [value >= l], [(l, u)] accepts [l <= value <= u];
    a side that is [None] is unbounded. *)
Definition inside (it : item) (value : Z) : Prop :=
  match it with
  | (None, None) => True
  | (None, Some upper) => value <= upper
  | (Some lower, None) => lower <= value
  | (Some lower, Some upper) => lower <= value <= upper
  end.

Definition insideb (it : item) (value : Z) : bool :=
  _item_contains it (Some value).

(** An item as [Range.__init__] builds it: some side is present, and the
    lower side is not above the upper one. *)
Definition wf_item (it : item) : Prop :=
  match it with
  | (None, None) => False
  | (Some lower, Some upper) => lower <= upper
  | _ => True
  end.

(** Every item passed the overlap check against the items before it. *)
Definition checked (its : list item) : Prop :=
  forall pre new post, its = pre ++ new :: post ->
    Forall (fun it => _items_overlap it new = false) pre.

(** A token that ends a group. *)
Definition ends_group (t : token) : bool :=
  is_eof_token t || is_comma_token t.


(** The tokens of a colon and of the ellipsis character. *)
Definition ellipsis_token (t : token) : Prop :=
  t = mk OP [58] \/ t = mk ERRORTOKEN ELLIPSIS.

(** A token that stands for a value. *)
Definition value_token (t : token) : Prop :=
  ttype t = NAME \/ ttype t = NUMBER \/ ttype t = STRING.

(** What follows a number in a rendering: nothing, a colon or a comma. *)
Definition boundary (rest : pystr) : Prop :=
  match rest with
  | [] => True
  | c :: _ => c = 58 \/ c = 44
  end.

(** The first character of the rendering of an item or of a number. *)
Definition starts_item (s : pystr) : Prop :=
  exists c rest, s = c :: rest /\ (isdigit c = true \/ c = 45 \/ c = 58).

Definition num_tokens (n : Z) : list token :=
  (if n <? 0 then [mk OP [45]] else []) ++ [mk NUMBER (str_N (Z.abs_N n))].

Definition item_tokens (it : item) : list token :=
  match it with
  | (None, None) => []
  | (None, Some upper) => mk OP [58] :: num_tokens upper
  | (Some lower, None) => num_tokens lower ++ [mk OP [58]]
  | (Some lower, Some upper) =>
      if lower =? upper then num_tokens lower
      else num_tokens lower ++ mk OP [58] :: num_tokens upper
  end.

Fixpoint more_tokens (its : list item) : list token :=
  match its with
  | [] => []
  | it :: rest => mk OP [44] :: item_tokens it ++ more_tokens rest
  end.

(** The characters of a rendering. *)
Definition render_char (c : Z) : Prop :=
  isdigit c = true \/ c = 45 \/ c = 58 \/ c = 44 \/ c = 32.

(** The variables of the group after the value [n] has been stored. *)
Definition store (g : group) (n : Z) : group :=
  if ellipsis_found g then Group (g_lower g) (Some n) true false
  else Group (Some n) (g_upper g) false false.

(** The variables at the end of the group that renders [it]. *)
Definition final_group (it : item) : group :=
  match it with
  | (None, None) => group_start
  | (None, Some upper) => Group None (Some upper) true false
  | (Some lower, None) => Group (Some lower) None true false
  | (Some lower, Some upper) =>
      if lower =? upper then Group (Some lower) None false false
      else Group (Some lower) (Some upper) true false
  end.

(** The text starts with three full stops. *)
Definition three_dots (s : pystr) : bool :=
  match s with
  | c1 :: c2 :: c3 :: _ => (c1 =? 46) && (c2 =? 46) && (c3 =? 46)
  | _ => false
  end.

(** Two tokens that the loop reads alike: the same token, or a colon and
    an ellipsis character in either order. *)
Definition same_reading (a b : token) : Prop :=
  a = b \/ (ellipsis_token a /\ ellipsis_token b).

(** The items a range shows: none for [None] and for the empty list. *)
Definition shown_items (r : Range) : list item :=
  match items r with
  | Some its => its
  | None => []
  end.

(** Number of comma tokens. *)
Fixpoint count_commas (tokens : list token) : nat :=
  match tokens with
  | [] => O
  | t :: rest => ((if is_comma_token t then 1 else 0) + count_commas rest)%nat
  end.

(* ===================================================================== *)
(** * server.py: the listener that writes validation events as HTML       *)
(* ===================================================================== *)

(** [s.replace(old, new)] for a pattern [old] of one character. *)
Definition replace_char (old : Z) (new : pystr) (s : pystr) : pystr :=
  flat_map (fun c => if c =? old then new else [c]) s.

(** [cgi.escape(s)] of the Python 2 standard library, without [quote]:
    the ampersand (38) first, then the angle brackets (60 and 62). *)
Definition cgi_escape (s : pystr) : pystr :=
  replace_char 62 (u "&gt;")
    (replace_char 60 (u "&lt;") (replace_char 38 (u "&amp;") s)).

(** The fields of [WfileWritingIcdEventListener]; [wfile] is the list of
    the texts written so far, oldest first. *)
Record WfileWritingIcdEventListener : Type := MkListener {
  wfile : list pystr;
  itemCount : Z;
  acceptedCount : Z;
  rejectedCount : Z
}.

(** [WfileWritingIcdEventListener.__init__(wfile, itemCount)]. *)
Definition Listener_init (wfile0 : list pystr) (itemCount0 : Z)
    : result exn WfileWritingIcdEventListener :=
  _ <- assert (itemCount0 >? 0) AssertionError ;;
  OK (MkListener wfile0 itemCount0 0 0).

(** [self.wfile.write(text)]. *)
Definition wfile_write (self : WfileWritingIcdEventListener) (text : pystr)
    : WfileWritingIcdEventListener :=
  MkListener (wfile self ++ [text]) (itemCount self)
             (acceptedCount self) (rejectedCount self).

(** The cell that [_writeRow] writes for one item: the td element with
    the class between double quotes (34) and the escaped item, and a line
    feed (10). *)
Definition row_cell (cssClass item : pystr) : pystr :=
  u "<td class=" ++ [34] ++ cssClass ++ [34] ++ u ">"
    ++ cgi_escape item ++ u "</td>" ++ [10].

(** [_writeRow(row, cssClass)]. *)
Definition _writeRow (self : WfileWritingIcdEventListener)
    (row : list pystr) (cssClass : pystr) : WfileWritingIcdEventListener :=
  let self := wfile_write self (u "<tr>" ++ [10]) in
  let self := fold_left (fun self item =>
                           wfile_write self (row_cell cssClass item))
                        row self in
  wfile_write self (u "</tr>" ++ [10]).

(** [_writeTextRow(text)]. *)
Definition _writeTextRow (self : WfileWritingIcdEventListener) (text : pystr)
    : WfileWritingIcdEventListener :=
  let self := wfile_write self (u "<tr>" ++ [10]) in
  let self := wfile_write self
                (u "<td colspan=" ++ [34] ++ str_int (itemCount self) ++ [34]
                   ++ u ">" ++ cgi_escape text ++ u "</td>" ++ [10]) in
  wfile_write self (u "</tr>" ++ [10]).

Definition acceptedRow (self : WfileWritingIcdEventListener)
    (row : list pystr) : WfileWritingIcdEventListener :=
  _writeRow self row (u "ok").

Definition rejectedRow (self : WfileWritingIcdEventListener)
    (row : list pystr) (errorMessage : pystr) : WfileWritingIcdEventListener :=
  let self := _writeRow self row (u "error") in
  _writeTextRow self errorMessage.

Definition checkAtRowFailed (self : WfileWritingIcdEventListener)
    (row : list pystr) (errorMessage : pystr) : WfileWritingIcdEventListener :=
  let self := _writeRow self row (u "error") in
  _writeTextRow self errorMessage.

Definition checkAtEndFailed (self : WfileWritingIcdEventListener)
    (errorMessage : pystr) : WfileWritingIcdEventListener :=
  _writeTextRow self (u "check at end failed: " ++ errorMessage).

Definition dataFormatFailed (self : WfileWritingIcdEventListener)
    (errorMessage : pystr) : WfileWritingIcdEventListener :=
  _writeTextRow self (u "data format is broken: " ++ errorMessage).

(** One call of a method of the listener by the validation. *)
Inductive event : Type :=
| AcceptedRow (row : list pystr)
| RejectedRow (row : list pystr) (errorMessage : pystr)
| CheckAtRowFailed (row : list pystr) (errorMessage : pystr)
| CheckAtEndFailed (errorMessage : pystr)
| DataFormatFailed (errorMessage : pystr).

Definition notify (self : WfileWritingIcdEventListener) (ev : event)
    : WfileWritingIcdEventListener :=
  match ev with
  | AcceptedRow row => acceptedRow self row
  | RejectedRow row msg => rejectedRow self row msg
  | CheckAtRowFailed row msg => checkAtRowFailed self row msg
  | CheckAtEndFailed msg => checkAtEndFailed self msg
  | DataFormatFailed msg => dataFormatFailed self msg
  end.

(** Number of occurrences of the character [c] in [s]. *)
Definition count_char (c : Z) (s : pystr) : nat := count_occ Z.eq_dec s c.

(** Number of tags an event writes: two for the row, two for each cell. *)
Definition tags_of (ev : event) : nat :=
  match ev with
  | AcceptedRow row => (2 + 2 * length row)%nat
  | RejectedRow row _ | CheckAtRowFailed row _ => (6 + 2 * length row)%nat
  | CheckAtEndFailed _ | DataFormatFailed _ => 4%nat
  end.

(* ===================================================================== *)
(** * Basic facts                                                         *)
(* ===================================================================== *)

Ltac bool_to_Z :=
  repeat match goal with
  | H : _ && _ = true |- _ => apply andb_true_iff in H; destruct H
  | H : _ || _ = false |- _ => apply orb_false_iff in H; destruct H
  | H : negb _ = true |- _ => apply negb_true_iff in H
  | H : negb _ = false |- _ => apply negb_false_iff in H
  | H : (_ <=? _) = true |- _ => apply Z.leb_le in H
  | H : (_ <=? _) = false |- _ => apply Z.leb_gt in H
  | H : (_ <? _) = true |- _ => apply Z.ltb_lt in H
  | H : (_ <? _) = false |- _ => apply Z.ltb_ge in H
  | H : (_ >=? _) = true |- _ => rewrite Z.geb_leb in H
  | H : (_ >=? _) = false |- _ => rewrite Z.geb_leb in H
  | H : (_ >? _) = true |- _ => rewrite Z.gtb_ltb in H
  | H : (_ >? _) = false |- _ => rewrite Z.gtb_ltb in H
  | H : (_ =? _) = true |- _ => apply Z.eqb_eq in H
  | H : (_ =? _) = false |- _ => apply Z.eqb_neq in H
  end.

Lemma insideb_spec it value : insideb it value = true <-> inside it value.
Proof.
  destruct it as [[l|] [h|]]; unfold insideb, inside; simpl;
    rewrite ?Z.geb_leb, ?andb_true_iff, ?Z.leb_le; tauto.
Qed.

Lemma bind_ok {E A B} (r : result E A) (k : A -> result E B) b :
  bind r k = OK b -> exists a, r = OK a /\ k a = OK b.
Proof. destruct r; simpl; [eauto | discriminate]. Qed.

(** Blank text stays blank, and text that is not blank stays so, when the
    three dots are replaced. *)
Lemma strip_nonempty_replace_dots text :
  strip_nonempty (replace_dots text) = strip_nonempty text.
Proof.
  remember (length text) as n eqn:Hn.
  assert (Hle : (length text <= n)%nat) by lia. clear Hn.
  revert text Hle. induction n as [|n IH]; intros text Hle.
  - destruct text; [reflexivity | simpl in Hle; lia].
  - destruct text as [|c1 rest1]; [reflexivity|].
    simpl in Hle.
    assert (Hplain : strip_nonempty (c1 :: replace_dots rest1)
                     = strip_nonempty (c1 :: rest1)).
    { unfold strip_nonempty in *. simpl. rewrite IH by lia. reflexivity. }
    destruct rest1 as [|c2 [|c3 rest3]]; try exact Hplain.
    change (replace_dots (c1 :: c2 :: c3 :: rest3))
      with (if (c1 =? 46) && (c2 =? 46) && (c3 =? 46)
            then 8230 :: replace_dots rest3
            else c1 :: replace_dots (c2 :: c3 :: rest3)).
    destruct ((c1 =? 46) && (c2 =? 46) && (c3 =? 46)) eqn:Hdots;
      [|exact Hplain].
    bool_to_Z. subst. reflexivity.
Qed.

(** The single recursion [tokens_loop] is the nesting of the two loops of
    the source: read one group with [item_loop], decide, append, and go on
    unless the group ended with the end marker. *)
Lemma tokens_loop_item_loop names its g tokens :
  tokens_loop names its g tokens =
    (found <- item_loop names g tokens ;;
     let '(g', next_token, tokens') := found in
     res <- decide_result g' ;;
     its' <- append_result its res ;;
     if is_eof_token next_token then OK its'
     else tokens_loop names its' group_start tokens').
Proof.
  revert g. induction tokens as [|t tokens IH]; intros g; [reflexivity|].
  simpl. destruct (negb (is_eof_token t) && negb (is_comma_token t)).
  - destruct (item_step names g t) as [g'|e]; simpl; [apply IH | reflexivity].
  - reflexivity.
Qed.

(** An induction principle for the items that [tokens_loop] returns. *)
Lemma tokens_loop_invariant names (Q : list item -> Prop) :
  (forall its g new, Q its -> decide_result g = OK (Some new) ->
     check_overlap its new = OK tt -> Q (its ++ [new])) ->
  forall tokens its g res,
    Q its -> tokens_loop names its g tokens = OK res -> Q res.
Proof.
  intros Hstep. induction tokens as [|t tokens IH]; intros its g res HQ Hrun;
    [discriminate|].
  simpl in Hrun. destruct (negb (is_eof_token t) && negb (is_comma_token t)).
  - apply bind_ok in Hrun as (g' & _ & Hrun). eauto.
  - apply bind_ok in Hrun as (r & Hdec & Hrun).
    apply bind_ok in Hrun as (its' & Happ & Hrun).
    assert (HQ' : Q its').
    { destruct r as [new|]; simpl in Happ.
      - apply bind_ok in Happ as ([] & Hchk & Happ).
        injection Happ as <-. eauto.
      - injection Happ as <-. exact HQ. }
    destruct (is_eof_token t); [injection Hrun as <-; exact HQ' | eauto].
Qed.

Lemma decide_result_wf g new : decide_result g = OK (Some new) -> wf_item new.
Proof.
  unfold decide_result.
  destruct g as [[l|] [h|] e a]; simpl; destruct a, e; simpl;
    try discriminate; try (intros [= <-]; simpl; lia).
  destruct (l >? h) eqn:Hgt; [discriminate|].
  intros [= <-]. simpl. bool_to_Z. lia.
Qed.

Lemma tokens_loop_wf names tokens res :
  tokens_loop names [] group_start tokens = OK res -> Forall wf_item res.
Proof.
  apply (tokens_loop_invariant names (Forall wf_item)); [|constructor].
  intros its g new Hits Hdec _. apply Forall_app. split; [exact Hits|].
  constructor; [|constructor]. eapply decide_result_wf; eauto.
Qed.

Lemma check_overlap_ok its new :
  check_overlap its new = OK tt <->
  Forall (fun it => _items_overlap it new = false) its.
Proof.
  induction its as [|it its IH]; simpl.
  - split; [constructor | reflexivity].
  - destruct (_items_overlap it new) eqn:Hov.
    + split.
      * destruct (_repr_item it); simpl; [|discriminate].
        destruct (_repr_item new); discriminate.
      * intros H. inversion H; congruence.
    + rewrite IH. split; [intros; constructor; auto | intros H; inversion H; auto].
Qed.

Lemma checked_snoc its new :
  checked its -> Forall (fun it => _items_overlap it new = false) its ->
  checked (its ++ [new]).
Proof.
  intros Hits Hnew pre x post Heq.
  destruct post as [|y post].
  - assert (Hlen : length its = length pre).
    { apply (f_equal (@length _)) in Heq. rewrite !length_app in Heq.
      simpl in Heq. lia. }
    apply app_inj_1 in Heq as [-> Hx]; [|exact Hlen].
    injection Hx as <-. exact Hnew.
  - destruct (@exists_last _ (y :: post)) as (post' & z & Hpost);
      [discriminate|].
    rewrite Hpost in Heq.
    change (pre ++ x :: post' ++ [z]) with (pre ++ (x :: post') ++ [z]) in Heq.
    rewrite app_assoc in Heq.
    apply app_inj_tail in Heq as [-> _]. eapply Hits. reflexivity.
Qed.

Lemma tokens_loop_checked names tokens res :
  tokens_loop names [] group_start tokens = OK res -> checked res.
Proof.
  apply (tokens_loop_invariant names checked).
  - intros its g new Hits _ Hchk. apply checked_snoc; [exact Hits|].
    apply check_overlap_ok. exact Hchk.
  - intros pre new post Heq. destruct pre; discriminate.
Qed.

Lemma from_tokenizer_ok {A} tokens (r : result exn A) x :
  from_tokenizer tokens r = OK x -> r = OK x.
Proof.
  destruct r as [a|[]]; simpl; try congruence.
  destruct (ends_with_end_marker tokens); congruence.
Qed.

(** What a successful construction looks like. *)
Lemma Range_init_ok names text default r :
  Range_init names text default = OK r ->
  (description r = None /\ items r = None) \/
  (exists t its, description r = Some t /\ items r = Some its /\
                 strip_nonempty t = true /\
                 tokens_loop names [] group_start (generate_tokens t) = OK its).
Proof.
  unfold Range_init. intros H.
  apply bind_ok in H as ([] & Hdef & H).
  assert (Hcase : forall t (b : bool),
    (b = true -> strip_nonempty t = true) ->
    match Some t with
    | Some t0 =>
        if b then
          its <- from_tokenizer (generate_tokens t0)
                   (tokens_loop names [] group_start (generate_tokens t0)) ;;
          OK (MkRange (Some t0) (Some its))
        else OK (MkRange None None)
    | None => OK (MkRange None None)
    end = OK r ->
    (description r = None /\ items r = None) \/
    (exists t its, description r = Some t /\ items r = Some its /\
                   strip_nonempty t = true /\
                   tokens_loop names [] group_start (generate_tokens t) = OK its)).
  { intros t b Hb Hr. destruct b.
    - apply bind_ok in Hr as (its & Hits & Hr). injection Hr as <-.
      apply from_tokenizer_ok in Hits. right. exists t, its. auto.
    - injection Hr as <-. left. auto. }
  destruct default as [d|]; simpl in Hdef.
  - destruct (strip_nonempty d) eqn:Hd; [|discriminate].
    destruct text as [t|]; simpl in H.
    + destruct (strip_nonempty (replace_dots t)) eqn:Ht; simpl in H.
      * apply (Hcase (replace_dots t) true); auto.
      * apply (Hcase d true); auto.
    + apply (Hcase d true); auto.
  - destruct text as [t|]; simpl in H.
    + apply (Hcase (replace_dots t) (strip_nonempty (replace_dots t))); auto.
    + injection H as <-. left. auto.
Qed.

Lemma Range_init_wf names text default r its :
  Range_init names text default = OK r -> items r = Some its ->
  Forall wf_item its /\ checked its.
Proof.
  intros Hinit Hits.
  apply Range_init_ok in Hinit as [[_ Hnone] | (t & its' & _ & Hsome & _ & Hrun)];
    [congruence|].
  assert (its' = its) by congruence. subst.
  split; [eapply tokens_loop_wf | eapply tokens_loop_checked]; eauto.
Qed.

Lemma validate_loop_wf its value :
  Forall wf_item its ->
  validate_loop its value = OK (existsb (fun it => insideb it value) its).
Proof.
  induction 1 as [|[[l|] [h|]] its Hwf _ IH]; simpl in *;
    try reflexivity; try contradiction; unfold insideb; simpl.
  - destruct ((value >=? l) && (value <=? h)); [reflexivity | exact IH].
  - destruct (value >=? l); [reflexivity | exact IH].
  - destruct (value <=? h); [reflexivity | exact IH].
Qed.

Lemma _repr_item_wf it : wf_item it -> exists s, _repr_item it = OK s.
Proof.
  destruct it as [[l|] [h|]]; simpl; try contradiction; intros _; eauto.
  destruct (l =? h); eauto.
Qed.

Lemma join_items_wf is_first its :
  Forall wf_item its -> exists s, join_items is_first its = OK s.
Proof.
  intros Hwf. revert is_first.
  induction Hwf as [|it its Hit _ IH]; intros is_first; simpl; [eauto|].
  destruct (_repr_item_wf it Hit) as [s ->]. simpl.
  destruct (IH false) as [tail ->]. simpl. eauto.
Qed.

Lemma Range_str_wf r its :
  items r = Some its -> Forall wf_item its -> exists s, Range_str r = OK s.
Proof.
  intros Hits Hwf. unfold Range_str. rewrite Hits.
  destruct its; [eauto | apply join_items_wf; exact Hwf].
Qed.

(* ===================================================================== *)
(** * Validation                                                          *)
(* ===================================================================== *)

(** C3.  For a range that was constructed and whose items are not [None],
    and for a name that is not empty, [validate] returns without error
    exactly when the value is inside at least one item; when no item
    accepts the value it raises [RangeValueError] with the location it was
    given and with the message "<name> is <value> but must be within
    range: <repr>", where <repr> is the canonical rendering of the range
    (between quotes when the range has an item). *)
Theorem validate_accepts_iff_inside_some_item
    (Location : Type) names text default r its name value
    (location : option Location) :
  Range_init names text default = OK r ->
  items r = Some its ->
  name <> [] ->
  (validate r name value location = OK tt <->
     exists it, In it its /\ inside it value) /\
  ((~ exists it, In it its /\ inside it value) ->
     exists rendering,
       Range_str r = OK rendering /\
       validate r name value location =
         Raise (RangeValueError
                  (name ++ u " is " ++ str_int value
                   ++ u " but must be within range: "
                   ++ match its with
                      | [] => rendering
                      | _ => u "'" ++ rendering ++ u "'"
                      end) location)).
Proof.
  intros Hinit Hits Hname.
  destruct (Range_init_wf _ _ _ _ _ Hinit Hits) as [Hwf _].
  destruct (Range_str_wf r its Hits Hwf) as [rendering Hstr].
  assert (Hrepr : Range_repr r = OK match its with
                                    | [] => rendering
                                    | _ => u "'" ++ rendering ++ u "'"
                                    end).
  { unfold Range_repr. rewrite Hits. destruct its.
    - unfold Range_str in Hstr. rewrite Hits in Hstr. exact Hstr.
    - rewrite Hstr. reflexivity. }
  assert (Hex : existsb (fun it => insideb it value) its = true <->
                exists it, In it its /\ inside it value).
  { rewrite existsb_exists. split; intros (it & Hin & Hacc); exists it;
      (split; [exact Hin | apply insideb_spec; exact Hacc]). }
  assert (Hrun : validate r name value location =
                 if existsb (fun it => insideb it value) its then OK tt
                 else Raise (RangeValueError
                   (name ++ u " is " ++ str_int value
                    ++ u " but must be within range: "
                    ++ match its with
                       | [] => rendering
                       | _ => u "'" ++ rendering ++ u "'"
                       end) location)).
  { unfold validate. rewrite bool_decide_eq_false_2 by exact Hname. simpl.
    rewrite Hits, (validate_loop_wf its value Hwf). simpl.
    destruct (existsb _ its); [reflexivity|]. rewrite Hrepr. reflexivity. }
  split.
  - rewrite Hrun, <- Hex. destruct (existsb _ its); split; congruence.
  - intros Hnone. exists rendering. split; [exact Hstr|].
    rewrite Hrun. destruct (existsb _ its) eqn:Hb; [|reflexivity].
    exfalso. apply Hnone, Hex. reflexivity.
Qed.

Lemma validate_accepts_iff_inside_some_item_witness :
  (validate (MkRange (Some (u "1:5")) (Some [(Some 1, Some 5)]))
            (u "size") 9 (Some tt) = OK tt <->
     exists it, In it [(Some 1, Some 5)] /\ inside it 9) /\
  ((~ exists it, In it [(Some 1, Some 5)] /\ inside it 9) ->
     exists rendering,
       Range_str (MkRange (Some (u "1:5")) (Some [(Some 1, Some 5)]))
         = OK rendering /\
       validate (MkRange (Some (u "1:5")) (Some [(Some 1, Some 5)]))
                (u "size") 9 (Some tt) =
         Raise (RangeValueError
                  (u "size" ++ u " is " ++ str_int 9
                   ++ u " but must be within range: "
                   ++ u "'" ++ rendering ++ u "'") (Some tt))).
Proof.
  apply (validate_accepts_iff_inside_some_item
           unit example_names (Some (u "1:5")) None).
  - vm_compute. reflexivity.
  - reflexivity.
  - discriminate.
Defined.

(** C4.  When the text is [None] or blank and no default is given, the
    construction succeeds with [description = None] and [items = None],
    and [validate] then succeeds for every integer (and every name that is
    not empty, as [validate] asserts). *)
Theorem blank_text_accepts_every_value (Location : Type) names text :
  match text with
  | None => True
  | Some t => strip_nonempty t = false
  end ->
  exists r,
    Range_init names text None = OK r /\
    description r = None /\ items r = None /\
    forall name value (location : option Location),
      name <> [] -> validate r name value location = OK tt.
Proof.
  intros Hblank. exists (MkRange None None).
  split; [|split; [reflexivity | split; [reflexivity|]]].
  - unfold Range_init. simpl. destruct text as [t|]; simpl; [|reflexivity].
    rewrite strip_nonempty_replace_dots, Hblank. reflexivity.
  - intros name value location Hname. unfold validate.
    rewrite bool_decide_eq_false_2 by exact Hname. reflexivity.
Qed.

Lemma blank_text_accepts_every_value_witness :
  exists r,
    Range_init example_names (Some (u "  ")) None = OK r /\
    description r = None /\ items r = None /\
    forall name value (location : option unit),
      name <> [] -> validate r name value location = OK tt.
Proof.
  apply (blank_text_accepts_every_value unit example_names (Some (u "  "))).
  reflexivity.
Defined.

(* ===================================================================== *)
(** * The description                                                     *)
(* ===================================================================== *)

(** What the code stores for a text that is not blank: the text in which
    every occurrence of three full stops is replaced by the ellipsis
    character U+2026. *)
Lemma description_is_text_with_ellipsis names text default r :
  strip_nonempty text = true ->
  Range_init names (Some text) default = OK r ->
  description r = Some (replace_dots text).
Proof.
  intros Htext Hinit. unfold Range_init in Hinit.
  apply bind_ok in Hinit as ([] & _ & Hinit). simpl in Hinit.
  rewrite strip_nonempty_replace_dots, Htext in Hinit. simpl in Hinit.
  assert (Hrun : (its <- from_tokenizer
                           (generate_tokens (replace_dots text))
                           (tokens_loop names [] group_start
                              (generate_tokens (replace_dots text))) ;;
                  OK (MkRange (Some (replace_dots text)) (Some its))) = OK r).
  { destruct default; exact Hinit. }
  apply bind_ok in Hrun as (its & _ & Hr). injection Hr as <-. reflexivity.
Qed.

(** C5, the code at the failing input.  The docstring of [description]
    promises the original description of the range, the one used to
    construct it.  The description of [Range("1...40")] holds the single
    character U+2026 where the text has three full stops: it is not the
    text that was passed.  A default is stored as it is written, and its
    full stops are not replaced: the same text given as the default
    reaches the tokenizer with its full stops and is not read as a
    range. *)
Theorem description_is_not_the_original_text :
  strip_nonempty (u "1...40") = true /\
  (exists r,
     Range_init example_names (Some (u "1...40")) None = OK r /\
     description r = Some [49; 8230; 52; 48] /\
     description r <> Some (u "1...40")) /\
  (exists r,
     Range_init example_names None (Some (u "1:40")) = OK r /\
     description r = Some (u "1:40")) /\
  generate_tokens (u "1...40")
    = [mk NUMBER (u "1."); mk OP (u "."); mk NUMBER (u ".40");
       mk ENDMARKER []] /\
  Range_init example_names None (Some (u "1...40"))
    = Raise (Interface (NumberMustBeInteger (u "1."))).
Proof.
  split; [reflexivity|]. split; [|split; [|split]].
  - eexists. split; [vm_compute; reflexivity|].
    split; [reflexivity | discriminate].
  - eexists. split; [vm_compute; reflexivity | reflexivity].
  - vm_compute. reflexivity.
  - vm_compute. reflexivity.
Qed.

(* ===================================================================== *)
(** * Overlapping items                                                   *)
(* ===================================================================== *)

(** C1, the code at the failing input.  [Range("3:4, 1:10")] is
    constructed: the check asks whether the bounds 1 and 10 of the new item
    fall inside the item 3:4, which they do not, although the new item
    encloses the old one and both accept 3 and 4. *)
Theorem overlap_check_misses_enclosing_item :
  _items_overlap (Some 3, Some 4) (Some 1, Some 10) = false /\
  exists r,
    Range_init example_names (Some (u "3:4, 1:10")) None = OK r /\
    items r = Some [(Some 3, Some 4); (Some 1, Some 10)] /\
    inside (Some 3, Some 4) 3 /\ inside (Some 1, Some 10) 3.
Proof.
  split; [reflexivity|]. eexists. split; [vm_compute; reflexivity|].
  split; [reflexivity|]. simpl. lia.
Qed.

(* ===================================================================== *)
(** * Groups                                                              *)
(* ===================================================================== *)






(* ===================================================================== *)
(** * Hyphens                                                             *)
(* ===================================================================== *)

(** What the loop does after a hyphen: a NUMBER token is negated and
    clears the flag; a token that is neither NAME, NUMBER nor STRING
    raises the hyphen error; the end of the group raises the hyphen error
    of [decide_result]. *)
Lemma hyphen_then_number names g digits n :
  after_hyphen g = true ->
  pystr_eqb (lower (take 2 digits)) (u "0x") = false ->
  int_of digits 10 = Some n ->
  long_value_of names NUMBER digits (after_hyphen g) = OK (- n, digits, false).
Proof.
  intros -> Hdec Hint. unfold long_value_of. rewrite Hdec, Hint.
  replace (- 1 * n) with (- n) by lia. reflexivity.
Qed.

Lemma hyphen_then_other names g t :
  after_hyphen g = true ->
  ttype t <> NAME -> ttype t <> NUMBER -> ttype t <> STRING ->
  item_step names g t = Raise (Interface (HyphenMustBeFollowedByNumber (tvalue t))).
Proof.
  intros Hh H1 H2 H3. unfold item_step.
  rewrite !bool_decide_eq_false_2 by assumption. simpl. rewrite Hh.
  reflexivity.
Qed.

Lemma hyphen_then_end g :
  after_hyphen g = true -> decide_result g = Raise (Interface HyphenAtEnd).
Proof. intros Hh. unfold decide_result. rewrite Hh. reflexivity. Qed.

(** A hyphen is pending and the place of the next value is taken. *)
Lemma pending_hyphen_fails names its tokens : forall g,
  after_hyphen g = true ->
  (if ellipsis_found g then g_upper g <> None else g_lower g <> None) ->
  exists e, tokens_loop names its g tokens = Raise e.
Proof.
  destruct tokens as [|t tokens]; intros g Hh Hfull; [simpl; eauto|].
  simpl. destruct (negb (is_eof_token t) && negb (is_comma_token t)).
  - assert (Hstep : exists e, item_step names g t = Raise e).
    { unfold item_step.
      destruct (bool_decide (ttype t = NAME) || bool_decide (ttype t = NUMBER)
                || bool_decide (ttype t = STRING)).
      - destruct (long_value_of names (ttype t) (tvalue t) (after_hyphen g))
          as [[[v s] h]|e]; simpl; [|eauto].
        destruct (ellipsis_found g).
        + destruct (g_upper g); [eauto | congruence].
        + destruct (g_lower g); [eauto | congruence].
      - rewrite Hh. eauto. }
    destruct Hstep as [e ->]. simpl. eauto.
  - rewrite (hyphen_then_end g Hh). simpl. eauto.
Qed.

(** A NAME or STRING token after a hyphen is taken as a value and leaves
    the hyphen pending: the construction fails, with the error of
    whatever comes first afterwards. *)
Lemma hyphen_then_name_or_string_fails names its g t tokens :
  after_hyphen g = true ->
  ttype t = NAME \/ ttype t = STRING ->
  exists e, tokens_loop names its g (t :: tokens) = Raise e.
Proof.
  intros Hh Hty. simpl.
  assert (Hend : negb (is_eof_token t) && negb (is_comma_token t) = true).
  { unfold is_eof_token, is_comma_token.
    destruct Hty as [-> | ->]; reflexivity. }
  rewrite Hend.
  destruct (item_step names g t) as [g'|e] eqn:Hstep; simpl; [|eauto].
  apply pending_hyphen_fails.
  - unfold item_step in Hstep.
    assert (Hb : bool_decide (ttype t = NAME) || bool_decide (ttype t = NUMBER)
                 || bool_decide (ttype t = STRING) = true).
    { destruct Hty as [-> | ->]; reflexivity. }
    rewrite Hb in Hstep. apply bind_ok in Hstep as ([[v s] h] & Hval & Hstep).
    assert (h = true).
    { unfold long_value_of in Hval. rewrite Hh in Hval.
      destruct Hty as [Hty | Hty]; rewrite Hty in Hval.
      - destruct (names !! lower (tvalue t)); [|discriminate].
        injection Hval as _ _ <-. reflexivity.
      - destruct (tvalue t) as [|q [|c [|q' [|x rest]]]]; try discriminate.
        simpl in Hval. destruct (is_quote q), (is_quote q'); try discriminate.
        injection Hval as _ _ <-. reflexivity. }
    subst h.
    destruct (ellipsis_found g).
    + destruct (g_upper g); [discriminate|]. injection Hstep as <-. reflexivity.
    + destruct (g_lower g); [discriminate|]. injection Hstep as <-. reflexivity.
  - unfold item_step in Hstep.
    assert (Hb : bool_decide (ttype t = NAME) || bool_decide (ttype t = NUMBER)
                 || bool_decide (ttype t = STRING) = true).
    { destruct Hty as [-> | ->]; reflexivity. }
    rewrite Hb in Hstep. apply bind_ok in Hstep as ([[v s] h] & Hval & Hstep).
    destruct (ellipsis_found g) eqn:He.
    + destruct (g_upper g); [discriminate|]. injection Hstep as <-.
      simpl. discriminate.
    + destruct (g_lower g); [discriminate|]. injection Hstep as <-.
      simpl. discriminate.
Qed.

(** C7, the code at the failing input.  In the text "-'a' 5" the hyphen is
    followed by a STRING token.  The loop takes the string as the lower
    limit and leaves [after_hyphen] set; the hyphen then negates the number
    that comes next, and the construction fails with "number must be
    followed by ellipsis", not with the hyphen error. *)
Theorem hyphen_before_string_is_not_reported :
  generate_tokens (u "-'a' 5")
    = [mk OP (u "-"); mk STRING (u "'a'"); mk NUMBER (u "5");
       mk ENDMARKER []] /\
  item_loop example_names group_start [mk OP (u "-"); mk STRING (u "'a'");
                                       mk ENDMARKER []]
    = OK (Group (Some 97) None false true, mk ENDMARKER [], []) /\
  Range_init example_names (Some (u "-'a' 5")) None
    = Raise (Interface (MustBeFollowedByEllipsis (u "5"))) /\
  Range_init example_names (Some (u "-nul")) None
    = Raise (Interface (SymbolicNameUnknown (u "nul"))).
Proof. repeat split; vm_compute; reflexivity. Qed.

(* ===================================================================== *)
(** * Lower and upper limit                                               *)
(* ===================================================================== *)

(** The outer loop fails where the group it is reading fails. *)
Lemma tokens_loop_group_fails names its tokens g g' next_token rest e :
  item_loop names g tokens = OK (g', next_token, rest) ->
  decide_result g' = Raise e ->
  tokens_loop names its g tokens = Raise e.
Proof.
  intros Hrun Hdec. rewrite tokens_loop_item_loop, Hrun. simpl.
  rewrite Hdec. reflexivity.
Qed.

(** The items the outer loop returns start with the items it was given. *)
Lemma tokens_loop_extends names tokens its g res :
  tokens_loop names its g tokens = OK res -> exists more, res = its ++ more.
Proof.
  apply (tokens_loop_invariant names (fun l => exists more, l = its ++ more)).
  - intros l g0 new [more ->] _ _. exists (more ++ [new]).
    rewrite app_assoc. reflexivity.
  - exists []. rewrite app_nil_r. reflexivity.
Qed.

(** C8, as the code has it.  A group with an ellipsis and both limits has
    been read to its end.  If a hyphen is pending the construction fails
    with the error on the hyphen at the end, whatever the limits are.
    Otherwise a lower limit above the upper one makes the construction
    fail with the error on the order of the limits, whatever items were
    accepted before, so that no range is produced; and with the limits in
    order the item (lower, upper) goes through the overlap check against
    the items accepted before: when the check fails the construction
    fails with its error, and when it passes the item is appended to the
    items, the loop goes on with the longer list, and the items of a
    construction that succeeds hold the item right after the earlier
    ones.  The texts "5...1" and "1...5" are instances. *)
Theorem group_with_both_limits
    names its tokens g next_token rest lo up :
  item_loop names group_start tokens = OK (g, next_token, rest) ->
  ellipsis_found g = true ->
  g_lower g = Some lo ->
  g_upper g = Some up ->
  (after_hyphen g = true ->
     tokens_loop names its group_start tokens
       = Raise (Interface HyphenAtEnd)) /\
  (after_hyphen g = false -> lo > up ->
     tokens_loop names its group_start tokens
       = Raise (Interface (LowerGreaterThanUpper lo up))) /\
  (after_hyphen g = false -> lo <= up ->
     (forall e, check_overlap its (Some lo, Some up) = Raise e ->
        tokens_loop names its group_start tokens = Raise e) /\
     (check_overlap its (Some lo, Some up) = OK tt ->
        tokens_loop names its group_start tokens
          = (if is_eof_token next_token
             then OK (its ++ [(Some lo, Some up)])
             else tokens_loop names (its ++ [(Some lo, Some up)])
                    group_start rest) /\
        forall res,
          tokens_loop names its group_start tokens = OK res ->
          exists more, res = its ++ (Some lo, Some up) :: more)) /\
  Range_init names (Some (u "5...1")) None
    = Raise (Interface (LowerGreaterThanUpper 5 1)) /\
  Range_init names (Some (u "1...5")) None
    = OK (MkRange (Some [49; 8230; 53]) (Some [(Some 1, Some 5)])).
Proof.
  intros Hrun He Hlo Hup.
  assert (Hdec : after_hyphen g = false ->
                 decide_result g =
                   if lo >? up
                   then Raise (Interface (LowerGreaterThanUpper lo up))
                   else OK (Some (Some lo, Some up))).
  { intros Hh. unfold decide_result. rewrite Hh, Hlo, He, Hup. reflexivity. }
  split; [|split; [|split; [|split]]].
  - intros Hh. eapply tokens_loop_group_fails; [exact Hrun|].
    unfold decide_result. rewrite Hh. reflexivity.
  - intros Hh Hgt. eapply tokens_loop_group_fails; [exact Hrun|].
    rewrite (Hdec Hh), Z.gtb_ltb.
    destruct (up <? lo) eqn:Hlt; [reflexivity | bool_to_Z; lia].
  - intros Hh Hle.
    assert (Hitem : decide_result g = OK (Some (Some lo, Some up))).
    { rewrite (Hdec Hh), Z.gtb_ltb.
      destruct (up <? lo) eqn:Hlt; [bool_to_Z; lia | reflexivity]. }
    assert (Hloop : tokens_loop names its group_start tokens =
              (_ <- check_overlap its (Some lo, Some up) ;;
               if is_eof_token next_token
               then OK (its ++ [(Some lo, Some up)])
               else tokens_loop names (its ++ [(Some lo, Some up)])
                      group_start rest)).
    { rewrite tokens_loop_item_loop, Hrun. simpl bind. rewrite Hitem.
      simpl. destruct (check_overlap its (Some lo, Some up)); reflexivity. }
    split.
    + intros e Hchk. rewrite Hloop, Hchk. reflexivity.
    + intros Hchk. rewrite Hloop, Hchk. simpl bind.
      split; [reflexivity|]. intros res Hres.
      destruct (is_eof_token next_token).
      * injection Hres as <-. exists []. reflexivity.
      * apply tokens_loop_extends in Hres as [more ->]. exists more.
        rewrite <- app_assoc. reflexivity.
  - reflexivity.
  - reflexivity.
Qed.

Lemma group_with_both_limits_witness :
  (false = true ->
     tokens_loop example_names [(Some 20, None)] group_start
       [mk NUMBER (u "2"); mk OP (u ":"); mk NUMBER (u "7"); mk OP (u ",");
        mk NUMBER (u "9"); mk ENDMARKER []]
       = Raise (Interface HyphenAtEnd)) /\
  (false = false -> 2 > 7 ->
     tokens_loop example_names [(Some 20, None)] group_start
       [mk NUMBER (u "2"); mk OP (u ":"); mk NUMBER (u "7"); mk OP (u ",");
        mk NUMBER (u "9"); mk ENDMARKER []]
       = Raise (Interface (LowerGreaterThanUpper 2 7))) /\
  (false = false -> 2 <= 7 ->
     (forall e, check_overlap [(Some 20, None)] (Some 2, Some 7) = Raise e ->
        tokens_loop example_names [(Some 20, None)] group_start
          [mk NUMBER (u "2"); mk OP (u ":"); mk NUMBER (u "7"); mk OP (u ",");
           mk NUMBER (u "9"); mk ENDMARKER []] = Raise e) /\
     (check_overlap [(Some 20, None)] (Some 2, Some 7) = OK tt ->
        tokens_loop example_names [(Some 20, None)] group_start
          [mk NUMBER (u "2"); mk OP (u ":"); mk NUMBER (u "7"); mk OP (u ",");
           mk NUMBER (u "9"); mk ENDMARKER []]
          = (if is_eof_token (mk OP (u ","))
             then OK ([(Some 20, None)] ++ [(Some 2, Some 7)])
             else tokens_loop example_names
                    ([(Some 20, None)] ++ [(Some 2, Some 7)])
                    group_start [mk NUMBER (u "9"); mk ENDMARKER []]) /\
        forall res,
          tokens_loop example_names [(Some 20, None)] group_start
            [mk NUMBER (u "2"); mk OP (u ":"); mk NUMBER (u "7");
             mk OP (u ","); mk NUMBER (u "9"); mk ENDMARKER []] = OK res ->
          exists more, res = [(Some 20, None)] ++ (Some 2, Some 7) :: more)) /\
  Range_init example_names (Some (u "5...1")) None
    = Raise (Interface (LowerGreaterThanUpper 5 1)) /\
  Range_init example_names (Some (u "1...5")) None
    = OK (MkRange (Some [49; 8230; 53]) (Some [(Some 1, Some 5)])).
Proof.
  apply (group_with_both_limits example_names [(Some 20, None)]
           [mk NUMBER (u "2"); mk OP (u ":"); mk NUMBER (u "7");
            mk OP (u ","); mk NUMBER (u "9"); mk ENDMARKER []]
           (Group (Some 2) (Some 7) true false) (mk OP (u ","))
           [mk NUMBER (u "9"); mk ENDMARKER []]);
    reflexivity.
Defined.

(** C8 as stated fails.  The group of the text "5:1-" holds an ellipsis
    and both limits, with the lower one above the upper one, and the
    construction fails with the error on the hyphen at the end, not with
    the error on the order of the limits.  In the text "1:5, 3:4" the
    limits of the second group are in order, and its item is not accepted:
    the construction fails with the error on overlapping items. *)
Lemma group_with_both_limits_fails_otherwise :
  item_loop example_names group_start (generate_tokens (u "5:1-"))
    = OK (Group (Some 5) (Some 1) true true, mk ENDMARKER [], []) /\
  Range_init example_names (Some (u "5:1-")) None
    = Raise (Interface HyphenAtEnd) /\
  item_loop example_names group_start
    [mk NUMBER (u "3"); mk OP (u ":"); mk NUMBER (u "4"); mk ENDMARKER []]
    = OK (Group (Some 3) (Some 4) true false, mk ENDMARKER [], []) /\
  Range_init example_names (Some (u "1:5, 3:4")) None
    = Raise (Interface (ItemsOverlap (u "1:5") (u "3:4"))).
Proof. repeat split; vm_compute; reflexivity. Qed.

(* ===================================================================== *)
(** * Quoted characters                                                   *)
(* ===================================================================== *)

(** The outer loop fails where the step on the token it reads fails. *)
Lemma tokens_loop_step_fails names its g t rest e :
  ends_group t = false ->
  item_step names g t = Raise e ->
  tokens_loop names its g (t :: rest) = Raise e.
Proof.
  unfold ends_group. intros Hend Hstep. simpl.
  apply orb_false_iff in Hend as [-> ->]. simpl. rewrite Hstep. reflexivity.
Qed.

(** The loop fails at a token for a line break, a comment, an indentation
    or an error other than the ellipsis character, whatever follows it:
    the tokens after it are never read. *)
Lemma tokens_loop_line_break names its g t :
  ttype t = NEWLINE \/ ttype t = NL \/ ttype t = COMMENT
  \/ ttype t = INDENT \/ ttype t = DEDENT \/ ttype t = ERRORTOKEN ->
  tvalue t <> ELLIPSIS -> tvalue t <> [58] ->
  exists e, forall rest, tokens_loop names its g (t :: rest) = Raise e.
Proof.
  intros Hty He Hc.
  assert (Hstep : exists e, item_step names g t = Raise e).
  { unfold item_step, pystr_eqb.
    rewrite (bool_decide_eq_false_2 _ He), (bool_decide_eq_false_2 _ Hc).
    destruct Hty as [H | [H | [H | [H | [H | H]]]]]; rewrite H; simpl;
      destruct (after_hyphen g); eauto. }
  destruct Hstep as [e Hstep]. exists e. intros rest.
  apply tokens_loop_step_fails; [|exact Hstep].
  unfold ends_group, is_eof_token, is_comma_token.
  destruct Hty as [H | [H | [H | [H | [H | H]]]]]; rewrite H; reflexivity.
Qed.

(** A STRING token without a prefix, whose text is a quote, a body and a
    quote, stands for a value exactly when the body is a single character:
    that character's code point is the value, and a body of any other
    length makes the construction fail with the error on the single
    character.  The text "'A'" yields the single item (65, 65). *)
Lemma quoted_text_is_a_single_character
    names its g rest q body hyphen :
  is_quote q = true ->
  (forall c, body = [c] ->
     long_value_of names STRING (q :: body ++ [q]) hyphen
       = OK (c, q :: body ++ [q], hyphen)) /\
  (length body <> 1%nat ->
     long_value_of names STRING (q :: body ++ [q]) hyphen
       = Raise (Interface (SingleCharacterExpected (q :: body ++ [q]))) /\
     tokens_loop names its g (mk STRING (q :: body ++ [q]) :: rest)
       = Raise (Interface (SingleCharacterExpected (q :: body ++ [q])))) /\
  Range_init names (Some (u "'A'")) None
    = OK (MkRange (Some (u "'A'")) (Some [(Some 65, Some 65)])).
Proof.
  intros Hq. split; [|split].
  - intros c ->. simpl. rewrite Hq. reflexivity.
  - intros Hlen.
    assert (Hval : forall h,
              long_value_of names STRING (q :: body ++ [q]) h
              = Raise (Interface
                         (SingleCharacterExpected (q :: body ++ [q])))).
    { intros h. destruct body as [|c1 [|c2 body]]; simpl in *;
        try reflexivity; [lia|]. destruct body; reflexivity. }
    split; [apply Hval|].
    apply tokens_loop_step_fails; [reflexivity|].
    unfold item_step, mk. cbn [ttype tvalue]. rewrite Hval. reflexivity.
  - reflexivity.
Qed.

(** C9, the code at the failing input.  The tokenizer yields a STRING
    token also for a quoted text with a prefix, and the loop measures the
    whole token.  The token of the text "r''" has three characters and
    encloses none: the test of the length passes and the assertion on the
    left quote fails, so the construction raises [AssertionError] and not
    the error on the single character.  The token of the text "u'a'"
    encloses the single character a between matching quotes and is
    refused with the error on the single character. *)
Theorem quoted_text_with_prefix_is_measured_whole :
  generate_tokens (u "r''") = [mk STRING (u "r''"); mk ENDMARKER []] /\
  long_value_of example_names STRING (u "r''") false = Raise AssertionError /\
  Range_init example_names (Some (u "r''")) None = Raise AssertionError /\
  generate_tokens (u "u'a'") = [mk STRING (u "u'a'"); mk ENDMARKER []] /\
  Range_init example_names (Some (u "u'a'")) None
    = Raise (Interface (SingleCharacterExpected (u "u'a'"))).
Proof. repeat split; vm_compute; reflexivity. Qed.

(* ===================================================================== *)
(** * Repeated ellipsis                                                   *)
(* ===================================================================== *)

Lemma item_step_ellipsis names g e :
  ellipsis_token e ->
  item_step names g e =
    if after_hyphen g
    then Raise (Interface (HyphenMustBeFollowedByNumber (tvalue e)))
    else OK (Group (g_lower g) (g_upper g) true false).
Proof.
  intros [-> | ->]; unfold item_step; simpl;
    destruct (after_hyphen g); reflexivity.
Qed.

Lemma long_value_of_error names ty v hyphen e :
  long_value_of names ty v hyphen = Raise (Interface e) ->
  e = NumberMustBeInteger (if pystr_eqb (lower (take 2 v)) (u "0x")
                           then drop 2 v else v)
  \/ e = SymbolicNameUnknown v \/ e = SingleCharacterExpected v.
Proof.
  unfold long_value_of. destruct ty.
  3: { destruct (pystr_eqb (lower (take 2 v)) (u "0x"));
       [destruct (int_of (drop 2 v) 16) | destruct (int_of v 10)];
       try (destruct hyphen; discriminate); intros [= <-]; auto. }
  2: { destruct (names !! lower v); [discriminate|]. intros [= <-]. auto. }
  all: destruct v as [|q [|c [|q' [|x v]]]]; try (intros [= <-]; auto);
    simpl; destruct (is_quote q), (is_quote q'); discriminate.
Qed.

Lemma at_most_error_origin names g t v :
  item_step names g t = Raise (Interface (AtMostLowerAndUpper v)) ->
  value_token t /\ ellipsis_found g = true /\ g_upper g <> None /\
  exists value hyphen,
    long_value_of names (ttype t) (tvalue t) (after_hyphen g)
      = OK (value, v, hyphen).
Proof.
  unfold item_step, value_token.
  destruct (bool_decide (ttype t = NAME) || bool_decide (ttype t = NUMBER)
            || bool_decide (ttype t = STRING)) eqn:Hb.
  - intros H. split.
    { apply orb_true_iff in Hb as [Hb | Hb];
        [apply orb_true_iff in Hb as [Hb | Hb]|];
        apply bool_decide_eq_true_1 in Hb; auto. }
    destruct (long_value_of names (ttype t) (tvalue t) (after_hyphen g))
      as [[[x s] h]|[e| | |]] eqn:Hval; simpl in H; try discriminate.
    + destruct (ellipsis_found g); [|destruct (g_lower g); discriminate].
      destruct (g_upper g); [|discriminate]. injection H as ->.
      split; [reflexivity|]. split; [discriminate | eauto].
    + apply long_value_of_error in Hval.
      injection H as ->. destruct Hval as [H | [H | H]]; discriminate.
  - destruct (after_hyphen g); [discriminate|].
    destruct (bool_decide (ttype t = OP) && pystr_eqb (tvalue t) [45]);
      [discriminate|].
    destruct (pystr_eqb (tvalue t) ELLIPSIS || pystr_eqb (tvalue t) [58]);
      discriminate.
Qed.

(** C10, as the code has it.  Within a group, an ellipsis or colon token
    that follows another one changes nothing: the group is read as with a
    single one, the token is a no-op once an ellipsis has been found, and
    the texts "1::5" and "1:5" yield the same single item (1, 5).  The
    error "range must have at most lower and upper limit" never comes from
    such a token.  It is raised exactly by a token that stands for a
    value and is read after the ellipsis when the upper limit is set,
    whether or not the group has a lower limit. *)
Theorem repeated_ellipsis_is_a_single_one names :
  (forall g e1 e2 tokens,
     ellipsis_token e1 -> ellipsis_token e2 ->
     item_loop names g (e1 :: e2 :: tokens) = item_loop names g (e1 :: tokens)) /\
  (forall its g e1 e2 tokens,
     ellipsis_token e1 -> ellipsis_token e2 ->
     tokens_loop names its g (e1 :: e2 :: tokens)
       = tokens_loop names its g (e1 :: tokens)) /\
  (forall g e, ellipsis_token e ->
     ellipsis_found g = true -> after_hyphen g = false ->
     item_step names g e = OK g) /\
  (Range_init names (Some (u "1::5")) None
     = OK (MkRange (Some (u "1::5")) (Some [(Some 1, Some 5)])) /\
   Range_init names (Some (u "1:5")) None
     = OK (MkRange (Some (u "1:5")) (Some [(Some 1, Some 5)]))) /\
  (forall g t v,
     item_step names g t = Raise (Interface (AtMostLowerAndUpper v)) <->
     value_token t /\ ellipsis_found g = true /\ g_upper g <> None /\
     exists value hyphen,
       long_value_of names (ttype t) (tvalue t) (after_hyphen g)
         = OK (value, v, hyphen)).
Proof.
  assert (Hends : forall e, ellipsis_token e -> ends_group e = false).
  { intros e [-> | ->]; reflexivity. }
  split; [|split; [|split; [|split]]].
  - intros g e1 e2 tokens H1 H2. simpl.
    pose proof (Hends _ H1) as Hn1. pose proof (Hends _ H2) as Hn2.
    unfold ends_group in Hn1, Hn2.
    apply orb_false_iff in Hn1 as [-> ->]. apply orb_false_iff in Hn2 as [-> ->].
    simpl. rewrite (item_step_ellipsis names g e1 H1).
    destruct (after_hyphen g); simpl; [reflexivity|].
    rewrite (item_step_ellipsis names _ e2 H2). reflexivity.
  - intros its g e1 e2 tokens H1 H2. simpl.
    pose proof (Hends _ H1) as Hn1. pose proof (Hends _ H2) as Hn2.
    unfold ends_group in Hn1, Hn2.
    apply orb_false_iff in Hn1 as [-> ->]. apply orb_false_iff in Hn2 as [-> ->].
    simpl. rewrite (item_step_ellipsis names g e1 H1).
    destruct (after_hyphen g); simpl; [reflexivity|].
    rewrite (item_step_ellipsis names _ e2 H2). reflexivity.
  - intros g e He Hfound Hh. rewrite (item_step_ellipsis names g e He), Hh.
    destruct g; simpl in *; subst; reflexivity.
  - split; reflexivity.
  - intros g t v. split; [apply at_most_error_origin|].
    intros (Hv & He & Hup & value & hyphen & Hval).
    unfold item_step.
    assert (Hb : bool_decide (ttype t = NAME) || bool_decide (ttype t = NUMBER)
                 || bool_decide (ttype t = STRING) = true).
    { destruct Hv as [H | [H | H]]; rewrite H; reflexivity. }
    rewrite Hb, Hval. simpl. rewrite He.
    destruct (g_upper g); [reflexivity | congruence].
Qed.

(** C10 as stated fails in its last part.  The group of the text ":5 6"
    has no lower limit when the value 6 is read, only the ellipsis and
    the upper limit 5, and the construction fails with the error on at
    most lower and upper limit; so does the text ":1:2". *)
Lemma at_most_error_without_lower_limit :
  item_loop example_names group_start
    [mk OP (u ":"); mk NUMBER (u "5"); mk ENDMARKER []]
    = OK (Group None (Some 5) true false, mk ENDMARKER [], []) /\
  item_step example_names (Group None (Some 5) true false) (mk NUMBER (u "6"))
    = Raise (Interface (AtMostLowerAndUpper (u "6"))) /\
  Range_init example_names (Some (u ":5 6")) None
    = Raise (Interface (AtMostLowerAndUpper (u "6"))) /\
  Range_init example_names (Some (u ":1:2")) None
    = Raise (Interface (AtMostLowerAndUpper (u "2"))).
Proof. repeat split; vm_compute; reflexivity. Qed.

(* ===================================================================== *)
(** * Decimal text of an integer                                          *)
(* ===================================================================== *)

Lemma pystr_of_uint_digits d : Forall (fun c => isdigit c = true) (pystr_of_uint d).
Proof. induction d; simpl; constructor; auto. Qed.

Lemma int_digits_of_uint_acc d : forall acc : positive,
  int_digits 10 (Zpos acc) (pystr_of_uint d) = Some (Zpos (Pos.of_uint_acc d acc)).
Proof.
  induction d; intros acc; simpl; [reflexivity|..];
    match goal with
    | |- int_digits 10 ?z _ = Some (Zpos (Pos.of_uint_acc _ ?p)) =>
        replace z with (Zpos p) by lia; apply IHd
    end.
Qed.

Lemma int_digits_of_uint d :
  int_digits 10 0 (pystr_of_uint d) = Some (Z.of_N (Pos.of_uint d)).
Proof.
  induction d; simpl; [reflexivity | exact IHd |..];
    match goal with
    | |- int_digits 10 ?z _ = _ =>
        change z with (Zpos (Z.to_pos z)); apply int_digits_of_uint_acc
    end.
Qed.

Lemma str_N_nonempty n : str_N n <> [].
Proof.
  unfold str_N. destruct n as [|p]; [discriminate|]. simpl.
  pose proof (Unsigned.to_uint_nonnil p) as Hnil.
  destruct (Pos.to_uint p); [congruence|..]; discriminate.
Qed.

(** [int(str(n))] is [n]. *)
Lemma int_of_str_N n : int_of (str_N n) 10 = Some (Z.of_N n).
Proof.
  unfold int_of. pose proof (str_N_nonempty n) as Hne.
  destruct (str_N n) eqn:Hs; [congruence|]. rewrite <- Hs. unfold str_N.
  rewrite int_digits_of_uint. change (Pos.of_uint (N.to_uint n))
    with (N.of_uint (N.to_uint n)).
  rewrite DecimalN.Unsigned.of_to. reflexivity.
Qed.

Lemma str_N_digits n : Forall (fun c => isdigit c = true) (str_N n).
Proof. apply pystr_of_uint_digits. Qed.

Lemma nzhead_no_leading_zero d d' : Decimal.nzhead d <> Decimal.D0 d'.
Proof. induction d; simpl; try discriminate. exact IHd. Qed.

(** The decimal text has no leading zero, unless it is the text of 0. *)
Lemma str_N_leading n :
  str_N n = [48] \/ exists c rest, str_N n = c :: rest /\ c <> 48.
Proof.
  unfold str_N.
  assert (Hnorm : N.to_uint n = Decimal.unorm (N.to_uint n)).
  { rewrite <- (DecimalN.Unsigned.of_to n) at 1.
    apply DecimalPos.Unsigned.to_of. }
  rewrite Hnorm. unfold Decimal.unorm.
  pose proof (nzhead_no_leading_zero (N.to_uint n)) as Hz.
  destruct (Decimal.nzhead (N.to_uint n)) eqn:Hd; simpl;
    first [ left; reflexivity
          | exfalso; eapply Hz; reflexivity
          | right; eexists _, _; split; [reflexivity | discriminate] ].
Qed.

Lemma str_int_abs n :
  str_int n = (if n <? 0 then [45] else []) ++ str_N (Z.abs_N n).
Proof. unfold str_int. destruct (n <? 0); reflexivity. Qed.

(* ===================================================================== *)
(** * The tokens of a rendered range                                      *)
(* ===================================================================== *)

Lemma tokens_from_skip final depth xs : forall fresh rest,
  tokens_from final (length xs) fresh depth (xs ++ rest)
    = tokens_from final O fresh depth rest.
Proof.
  induction xs as [|x xs IH]; intros fresh rest; simpl; [|apply IH].
  destruct rest; reflexivity.
Qed.

Lemma span_len_all p xs rest :
  Forall (fun c => p c = true) xs -> starts_with p rest = false ->
  span_len p (xs ++ rest) = length xs.
Proof.
  intros Hxs Hrest. induction Hxs as [|x xs Hx _ IH]; simpl.
  - destruct rest as [|c rest]; [reflexivity|]. simpl in *.
    rewrite Hrest. reflexivity.
  - rewrite Hx, IH. reflexivity.
Qed.

Lemma boundary_starts rest (p : Z -> bool) :
  boundary rest -> p 58 = false -> p 44 = false -> starts_with p rest = false.
Proof.
  destruct rest as [|c rest]; simpl; [reflexivity|].
  intros [-> | ->]; auto.
Qed.

Lemma isdigit_range c : isdigit c = true -> 48 <= c <= 57.
Proof. unfold isdigit. intros H. bool_to_Z. lia. Qed.

(** The digits of a natural number, followed by a boundary, are one NUMBER
    token. *)
Lemma number_len_str_N n rest :
  boundary rest -> number_len (str_N n ++ rest) = length (str_N n).
Proof.
  intros Hb.
  pose proof (str_N_digits n) as Hdig.
  pose proof (str_N_nonempty n) as Hne.
  pose proof (str_N_leading n) as Hlead.
  assert (Hspan : span_len isdigit (str_N n ++ rest) = length (str_N n)).
  { apply span_len_all; [exact Hdig | apply boundary_starts; auto]. }
  assert (Hdrop : drop (length (str_N n)) (str_N n ++ rest) = rest).
  { apply drop_app_length. }
  unfold number_len. rewrite Hspan.
  destruct (str_N n) as [|c ds] eqn:Hs; [congruence|].
  change (length (c :: ds)) with (S (length ds)) in *.
  rewrite Hdrop.
  rewrite (boundary_starts rest (is_either 106 74)) by auto.
  assert (Hfloat : float_len ((c :: ds) ++ rest) = O).
  { unfold float_len. rewrite Hspan, Hdrop.
    rewrite (boundary_starts rest (is_char 46)) by auto.
    assert (He : exponent_len rest = O).
    { destruct rest as [|x rest]; [reflexivity|]. simpl in Hb.
      destruct Hb as [-> | ->]; reflexivity. }
    rewrite He. reflexivity. }
  rewrite Hfloat.
  inversion Hdig as [|? ? Hc Hds]; subst.
  unfold integer_len. simpl app. cbv beta iota. rewrite Hc. simpl negb.
  cbv iota.
  destruct Hlead as [Hzero | (c' & ds' & Heq & Hnz)].
  - injection Hzero as -> ->. simpl.
    rewrite (boundary_starts rest (is_either 120 88)) by auto.
    rewrite (boundary_starts rest (is_either 98 66)) by auto.
    rewrite (boundary_starts rest (is_either 111 79)) by auto.
    simpl. unfold with_long_suffix.
    assert (Ho : span_len isoctdigit rest = O).
    { destruct rest as [|x rest]; [reflexivity|]. simpl in Hb.
      destruct Hb as [-> | ->]; reflexivity. }
    rewrite Ho. simpl. rewrite drop_0.
    rewrite (boundary_starts rest (is_either 108 76)) by auto. reflexivity.
  - injection Heq as <- <-.
    apply Z.eqb_neq in Hnz. rewrite Hnz. simpl negb. cbv iota.
    unfold with_long_suffix.
    assert (Hds' : span_len isdigit (ds ++ rest) = length ds).
    { apply span_len_all; [exact Hds | apply boundary_starts; auto]. }
    rewrite Hds'.
    change (drop (1 + length ds) (c :: ds ++ rest))
      with (drop (length ds) (ds ++ rest)).
    rewrite drop_app_length.
    rewrite (boundary_starts rest (is_either 108 76)) by auto. reflexivity.
Qed.

(** A NUMBER token found by its length. *)
Lemma scan_token_number fresh c ds rest :
  isdigit c = true ->
  number_len ((c :: ds) ++ rest) = length (c :: ds) ->
  scan_token fresh false ((c :: ds) ++ rest)
    = Found (mk NUMBER (c :: ds)) (S (length ds)).
Proof.
  intros Hc Hlen. apply isdigit_range in Hc.
  assert (H35 : (c =? 35) = false) by (apply Z.eqb_neq; lia).
  assert (H10 : (c =? 10) = false) by (apply Z.eqb_neq; lia).
  assert (H13 : (c =? 13) = false) by (apply Z.eqb_neq; lia).
  assert (H92 : (c =? 92) = false) by (apply Z.eqb_neq; lia).
  unfold scan_token. simpl app. cbv beta iota.
  rewrite H35, H10, H13, andb_false_r. simpl andb. cbv iota.
  unfold joined_len at 1. rewrite H92. simpl negb. cbv iota.
  change (c :: ds ++ rest) with ((c :: ds) ++ rest). rewrite Hlen.
  simpl length. cbv iota.
  change (S (length ds)) with (length (c :: ds)) at 1.
  rewrite take_app_length. reflexivity.
Qed.

Lemma isdigit_not_blank c : isdigit c = true -> is_blank c = false.
Proof.
  intros Hc. apply isdigit_range in Hc.
  unfold is_blank. repeat (apply orb_false_iff; split); apply Z.eqb_neq; lia.
Qed.

Lemma tokens_from_str_N final n rest fresh :
  boundary rest ->
  tokens_from final O fresh 0 (str_N n ++ rest)
    = mk NUMBER (str_N n) :: tokens_from final O false 0 rest.
Proof.
  intros Hb.
  pose proof (number_len_str_N n rest Hb) as Hlen.
  pose proof (str_N_digits n) as Hdig.
  pose proof (str_N_nonempty n) as Hne.
  destruct (str_N n) as [|c ds] eqn:Hs; [congruence|].
  inversion Hdig as [|? ? Hc Hds]; subst.
  pose proof (scan_token_number fresh c ds rest Hc Hlen) as Hscan.
  simpl app in *. cbn [tokens_from]. rewrite (isdigit_not_blank c Hc).
  change (0 <? 0) with false. rewrite Hscan. simpl. f_equal.
  apply tokens_from_skip.
Qed.

Lemma op_len_hyphen_colon c rest :
  c = 45 \/ c = 58 -> op_len (c :: rest) <> O.
Proof.
  intros [-> | ->]; unfold op_len; simpl; rewrite andb_false_r;
    try destruct (starts_with _ rest); discriminate.
Qed.

Lemma tokens_from_colon final rest fresh :
  tokens_from final O fresh 0 (58 :: rest)
    = mk OP [58] :: tokens_from final O false 0 rest.
Proof.
  destruct fresh, rest as [|c rest]; try reflexivity; simpl;
    rewrite andb_false_r; reflexivity.
Qed.

Lemma starts_item_begins_token s :
  starts_item s -> begins_token (drop (span_len is_blank s) s) = true.
Proof.
  intros (c & rest & -> & Hc).
  assert (Hblank : is_blank c = false).
  { destruct Hc as [Hc | [-> | ->]];
      [apply isdigit_not_blank; exact Hc | reflexivity | reflexivity]. }
  simpl span_len. rewrite Hblank. rewrite drop_0.
  unfold begins_token.
  destruct Hc as [Hc | Hc].
  - rewrite Hc. rewrite !orb_true_r. reflexivity.
  - pose proof (op_len_hyphen_colon c rest Hc) as Hop.
    destruct (op_len (c :: rest)); [congruence|].
    simpl negb. rewrite !orb_true_r. reflexivity.
Qed.

Lemma tokens_from_comma_space final rest fresh :
  starts_item rest ->
  tokens_from final O fresh 0 (44 :: 32 :: rest)
    = mk OP [44] :: tokens_from final O false 0 rest.
Proof.
  intros Hrest. apply starts_item_begins_token in Hrest.
  assert (Hscan : scan_token fresh (0 <? 0) (44 :: 32 :: rest)
                  = Found (mk OP [44]) 1) by (destruct fresh; reflexivity).
  unfold tokens_from at 1. fold tokens_from. simpl is_blank. cbv iota.
  rewrite Hscan. cbv iota beta.
  simpl. unfold tokens_from at 1. fold tokens_from.
  simpl is_blank. cbv iota. rewrite Hrest. reflexivity.
Qed.

Lemma tokens_from_hyphen final c rest fresh :
  isdigit c = true ->
  tokens_from final O fresh 0 (45 :: c :: rest)
    = mk OP [45] :: tokens_from final O false 0 (c :: rest).
Proof.
  intros Hc. apply isdigit_range in Hc.
  assert (H45 : (c =? 45) = false) by (apply Z.eqb_neq; lia).
  assert (H61 : (c =? 61) = false) by (apply Z.eqb_neq; lia).
  assert (Hscan : scan_token fresh (0 <? 0) (45 :: c :: rest)
                  = Found (mk OP [45]) 1).
  { destruct fresh; unfold scan_token; cbn -[Z.eqb];
      unfold is_char, is_either; simpl; rewrite ?H45, ?H61; reflexivity. }
  unfold tokens_from at 1. fold tokens_from. simpl is_blank. cbv iota.
  rewrite Hscan. reflexivity.
Qed.

Arguments tokens_from : simpl never.

Lemma str_N_head n :
  exists c ds, str_N n = c :: ds /\ isdigit c = true.
Proof.
  pose proof (str_N_digits n) as Hdig. pose proof (str_N_nonempty n) as Hne.
  destruct (str_N n) as [|c ds]; [congruence|].
  inversion Hdig; subst. eauto.
Qed.

Lemma tokens_from_str_int final n rest fresh :
  boundary rest ->
  tokens_from final O fresh 0 (str_int n ++ rest)
    = num_tokens n ++ tokens_from final O false 0 rest.
Proof.
  intros Hb. rewrite str_int_abs. unfold num_tokens.
  destruct (n <? 0); simpl app.
  - destruct (str_N_head (Z.abs_N n)) as (c & ds & Hs & Hc).
    rewrite Hs. simpl app. rewrite (tokens_from_hyphen final c _ fresh Hc).
    f_equal. change (c :: ds ++ rest) with ((c :: ds) ++ rest).
    rewrite <- Hs. apply tokens_from_str_N. exact Hb.
  - apply tokens_from_str_N. exact Hb.
Qed.

Lemma str_int_starts_item n rest : starts_item (str_int n ++ rest).
Proof.
  rewrite str_int_abs.
  destruct (str_N_head (Z.abs_N n)) as (c & ds & Hs & Hc). rewrite Hs.
  destruct (n <? 0); simpl; eexists _, _; split; try reflexivity; auto.
Qed.

Lemma _repr_item_starts_item it s rest :
  _repr_item it = OK s -> starts_item (s ++ rest).
Proof.
  destruct it as [[lo|] [up|]]; simpl; try discriminate.
  - destruct (lo =? up); intros [= <-]; rewrite <- ?app_assoc;
      apply str_int_starts_item.
  - intros [= <-]. rewrite <- app_assoc. apply str_int_starts_item.
  - intros [= <-]. eexists _, _. split; [reflexivity | auto].
Qed.

(** The tokens of the rendering of one item. *)
Lemma tokens_from_repr_item final it s rest fresh :
  _repr_item it = OK s -> boundary rest ->
  tokens_from final O fresh 0 (s ++ rest)
    = item_tokens it ++ tokens_from final O false 0 rest.
Proof.
  intros Hs Hb. destruct it as [[lo|] [up|]]; simpl in Hs.
  - destruct (lo =? up) eqn:Heq; injection Hs as <-; simpl; rewrite Heq.
    + apply tokens_from_str_int. exact Hb.
    + rewrite <- !app_assoc. simpl app.
      rewrite tokens_from_str_int by (simpl; auto).
      rewrite tokens_from_colon, tokens_from_str_int by exact Hb.
      reflexivity.
  - injection Hs as <-. simpl. rewrite <- !app_assoc. simpl app.
    rewrite tokens_from_str_int by (simpl; auto).
    rewrite tokens_from_colon. reflexivity.
  - injection Hs as <-. simpl.
    rewrite tokens_from_colon, tokens_from_str_int by exact Hb. reflexivity.
  - discriminate.
Qed.

(** The tokens of the items after the first one. *)
Lemma tokens_from_join_items final its : forall s fresh,
  join_items false its = OK s ->
  tokens_from final O fresh 0 s = more_tokens its ++ final /\ boundary s.
Proof.
  induction its as [|it its IH]; intros s fresh Hs; simpl in Hs.
  - injection Hs as <-. split; [reflexivity | exact I].
  - apply bind_ok in Hs as (si & Hit & Hs).
    apply bind_ok in Hs as (tail & Htail & Hs). injection Hs as <-.
    destruct (IH tail false Htail) as [Htok Hb].
    split; [|simpl; auto].
    change (u ", " ++ si ++ tail) with (44 :: 32 :: si ++ tail).
    rewrite tokens_from_comma_space
      by (eapply _repr_item_starts_item; exact Hit).
    rewrite (tokens_from_repr_item final it si tail false Hit Hb), Htok.
    simpl. rewrite <- app_assoc. reflexivity.
Qed.

Lemma str_int_chars n : Forall render_char (str_int n).
Proof.
  rewrite str_int_abs. apply Forall_app. split.
  - destruct (n <? 0); constructor; [right; left; reflexivity | constructor].
  - eapply Forall_impl; [apply str_N_digits|]. intros c Hc. left. exact Hc.
Qed.

Lemma _repr_item_chars it s : _repr_item it = OK s -> Forall render_char s.
Proof.
  assert (Hcolon : render_char 58) by (right; right; left; reflexivity).
  destruct it as [[lo|] [up|]]; simpl; try discriminate.
  - destruct (lo =? up); intros [= <-]; [apply str_int_chars|].
    apply Forall_app. split; [apply str_int_chars|].
    constructor; [exact Hcolon | apply str_int_chars].
  - intros [= <-]. apply Forall_app. split; [apply str_int_chars|].
    constructor; [exact Hcolon | constructor].
  - intros [= <-]. constructor; [exact Hcolon | apply str_int_chars].
Qed.

Lemma join_items_chars its : forall is_first s,
  join_items is_first its = OK s -> Forall render_char s.
Proof.
  induction its as [|it its IH]; intros is_first s Hs; simpl in Hs.
  - injection Hs as <-. constructor.
  - apply bind_ok in Hs as (si & Hit & Hs).
    apply bind_ok in Hs as (tail & Htail & Hs). injection Hs as <-.
    apply Forall_app. split.
    + destruct is_first; [constructor|].
      constructor; [right; right; right; left; reflexivity|].
      constructor; [right; right; right; right; reflexivity | constructor].
    + apply Forall_app. split; [eapply _repr_item_chars | eapply IH]; eauto.
Qed.

Lemma render_char_not_dot c : render_char c -> (c =? 46) = false.
Proof.
  intros [H | [-> | [-> | [-> | ->]]]]; try reflexivity.
  apply isdigit_range in H. apply Z.eqb_neq. lia.
Qed.

Lemma replace_dots_rendering s : Forall render_char s -> replace_dots s = s.
Proof.
  induction 1 as [|c1 rest1 Hc _ IH]; [reflexivity|].
  apply render_char_not_dot in Hc.
  assert (Hplain : replace_dots (c1 :: rest1) = c1 :: replace_dots rest1).
  { destruct rest1 as [|c2 [|c3 rest3]]; try reflexivity.
    change (replace_dots (c1 :: c2 :: c3 :: rest3))
      with (if (c1 =? 46) && (c2 =? 46) && (c3 =? 46)
            then 8230 :: replace_dots rest3
            else c1 :: replace_dots (c2 :: c3 :: rest3)).
    rewrite Hc. reflexivity. }
  rewrite Hplain, IH. reflexivity.
Qed.

(** The rendering of an item starts with a digit, a hyphen or a colon. *)
Lemma _repr_item_head it s :
  _repr_item it = OK s ->
  exists c rest, s = c :: rest /\ is_blank c = false /\ isspace c = false.
Proof.
  assert (Hint : forall n tail, exists c rest,
            str_int n ++ tail = c :: rest /\
            is_blank c = false /\ isspace c = false).
  { intros n tail. rewrite str_int_abs. destruct (n <? 0); simpl app.
    - eexists _, _. split; [reflexivity|]. split; reflexivity.
    - destruct (str_N_head (Z.abs_N n)) as (c & ds & -> & Hc).
      exists c, (ds ++ tail). split; [reflexivity|].
      apply isdigit_range in Hc. unfold is_blank, isspace.
      split; repeat (apply orb_false_iff; split);
        try (apply Z.eqb_neq; lia);
        apply andb_false_iff; first [ left; apply Z.leb_gt; lia
                                    | right; apply Z.leb_gt; lia ]. }
  destruct it as [[lo|] [up|]]; simpl; try discriminate.
  - destruct (lo =? up); intros [= <-].
    + destruct (Hint lo []) as (c & rest & Heq & H). rewrite app_nil_r in Heq.
      eauto.
    + apply Hint.
  - intros [= <-]. apply Hint.
  - intros [= <-]. eexists _, _. split; [reflexivity|]. split; reflexivity.
Qed.

(* ===================================================================== *)
(** * Reading a rendering again                                           *)
(* ===================================================================== *)

Lemma str_N_is_decimal n :
  pystr_eqb (lower (take 2 (str_N n))) (u "0x") = false.
Proof.
  unfold pystr_eqb. apply bool_decide_eq_false_2.
  pose proof (str_N_digits n) as Hdig.
  destruct (str_N n) as [|c1 [|c2 ds]]; try discriminate.
  inversion Hdig as [|? ? _ Hds]; subst.
  inversion Hds as [|? ? Hc2 _]; subst. apply isdigit_range in Hc2.
  simpl. unfold lower_char at 2.
  destruct ((65 <=? c2) && (c2 <=? 90)) eqn:Hup; [bool_to_Z; lia|].
  intros [= _ ->]. lia.
Qed.

Lemma long_value_of_str_N names n hyphen :
  long_value_of names NUMBER (str_N n) hyphen
    = OK ((if hyphen then - Z.of_N n else Z.of_N n), str_N n, false).
Proof.
  unfold long_value_of. rewrite str_N_is_decimal, int_of_str_N.
  destruct hyphen; [|reflexivity].
  replace (- 1 * Z.of_N n) with (- Z.of_N n) by lia. reflexivity.
Qed.

Lemma item_step_str_N names g n :
  (if ellipsis_found g then g_upper g = None else g_lower g = None) ->
  item_step names g (mk NUMBER (str_N n))
    = OK (store g (if after_hyphen g then - Z.of_N n else Z.of_N n)).
Proof.
  intros Hfree. unfold item_step, store, mk. cbn [ttype tvalue].
  rewrite long_value_of_str_N. simpl.
  destruct (ellipsis_found g); rewrite Hfree; reflexivity.
Qed.

(** Reading the tokens of a number stores the number. *)
Lemma item_loop_num_tokens names g n tokens :
  after_hyphen g = false ->
  (if ellipsis_found g then g_upper g = None else g_lower g = None) ->
  item_loop names g (num_tokens n ++ tokens) = item_loop names (store g n) tokens.
Proof.
  intros Hh Hfree. unfold num_tokens. destruct (n <? 0) eqn:Hneg; simpl app.
  - cbn [item_loop]. change (is_eof_token (mk OP [45])) with false.
    change (is_comma_token (mk OP [45])) with false.
    change (is_eof_token (mk NUMBER (str_N (Z.abs_N n)))) with false.
    change (is_comma_token (mk NUMBER (str_N (Z.abs_N n)))) with false.
    simpl negb. simpl andb. cbv iota.
    assert (Hstep : item_step names g (mk OP [45])
                    = OK (Group (g_lower g) (g_upper g) (ellipsis_found g) true)).
    { unfold item_step. simpl. rewrite Hh. reflexivity. }
    rewrite Hstep. simpl bind.
    rewrite item_step_str_N by exact Hfree. simpl bind.
    replace (- Z.of_N (Z.abs_N n)) with n by (bool_to_Z; lia).
    reflexivity.
  - cbn [item_loop].
    change (is_eof_token (mk NUMBER (str_N (Z.abs_N n)))) with false.
    change (is_comma_token (mk NUMBER (str_N (Z.abs_N n)))) with false.
    simpl negb. simpl andb. cbv iota.
    rewrite item_step_str_N by exact Hfree. rewrite Hh. simpl bind.
    replace (Z.of_N (Z.abs_N n)) with n by (bool_to_Z; lia).
    reflexivity.
Qed.

Lemma item_loop_colon names g tokens :
  after_hyphen g = false ->
  item_loop names g (mk OP [58] :: tokens)
    = item_loop names (Group (g_lower g) (g_upper g) true false) tokens.
Proof.
  intros Hh. cbn [item_loop].
  change (is_eof_token (mk OP [58])) with false.
  change (is_comma_token (mk OP [58])) with false.
  simpl negb. simpl andb. cbv iota.
  rewrite (item_step_ellipsis names g (mk OP [58])) by (left; reflexivity).
  rewrite Hh. reflexivity.
Qed.

Lemma item_loop_end names g t tokens :
  ends_group t = true -> item_loop names g (t :: tokens) = OK (g, t, tokens).
Proof.
  unfold ends_group. intros Hend. cbn [item_loop].
  destruct (is_eof_token t), (is_comma_token t); simpl in *;
    congruence.
Qed.

(** Reading the tokens of a rendered item gives the item back. *)
Lemma item_loop_item_tokens names it t tokens :
  wf_item it -> ends_group t = true ->
  item_loop names group_start (item_tokens it ++ t :: tokens)
    = OK (final_group it, t, tokens).
Proof.
  intros Hwf Hend. destruct it as [[lo|] [up|]]; simpl in Hwf;
    try contradiction; unfold item_tokens, final_group.
  - destruct (lo =? up).
    + rewrite item_loop_num_tokens by reflexivity.
      apply item_loop_end. exact Hend.
    + rewrite <- app_assoc. rewrite item_loop_num_tokens by reflexivity.
      simpl app. rewrite item_loop_colon by reflexivity.
      rewrite item_loop_num_tokens by reflexivity.
      apply item_loop_end. exact Hend.
  - rewrite <- app_assoc. rewrite item_loop_num_tokens by reflexivity.
    simpl app. rewrite item_loop_colon by reflexivity.
    apply item_loop_end. exact Hend.
  - simpl app. rewrite item_loop_colon by reflexivity.
    rewrite item_loop_num_tokens by reflexivity.
    apply item_loop_end. exact Hend.
Qed.

Lemma decide_result_final_group it :
  wf_item it -> decide_result (final_group it) = OK (Some it).
Proof.
  destruct it as [[lo|] [up|]]; simpl; try contradiction; try reflexivity.
  intros Hle. destruct (lo =? up) eqn:Heq; unfold decide_result; simpl.
  - bool_to_Z. subst. reflexivity.
  - rewrite Z.gtb_ltb. destruct (up <? lo) eqn:Hlt; [bool_to_Z; lia|].
    reflexivity.
Qed.

(** The outer loop on the tokens of a rendering appends the rendered
    items, provided each passes the overlap check as it did before. *)
Lemma tokens_loop_rendering names its : forall acc it,
  Forall wf_item (it :: its) ->
  checked (acc ++ it :: its) ->
  tokens_loop names acc group_start
    (item_tokens it ++ more_tokens its ++ [mk ENDMARKER []])
    = OK (acc ++ it :: its).
Proof.
  induction its as [|it' its IH]; intros acc it Hwf Hchk;
    inversion Hwf as [|? ? Hit Hrest]; subst.
  - simpl app. rewrite tokens_loop_item_loop.
    rewrite item_loop_item_tokens by (auto; reflexivity). simpl bind.
    rewrite decide_result_final_group by exact Hit. simpl bind.
    assert (Hov : check_overlap acc it = OK tt).
    { apply check_overlap_ok. eapply Hchk. reflexivity. }
    rewrite Hov. reflexivity.
  - cbn [more_tokens]. rewrite tokens_loop_item_loop.
    change ((mk OP [44] :: item_tokens it' ++ more_tokens its)
            ++ [mk ENDMARKER []])
      with (mk OP [44] :: ((item_tokens it' ++ more_tokens its)
                           ++ [mk ENDMARKER []])).
    rewrite <- (app_assoc (item_tokens it')).
    rewrite item_loop_item_tokens by (auto; reflexivity). simpl bind.
    rewrite decide_result_final_group by exact Hit. simpl bind.
    assert (Hov : check_overlap acc it = OK tt).
    { apply check_overlap_ok. eapply Hchk. reflexivity. }
    rewrite Hov. simpl bind.
    change (is_eof_token (mk OP [44])) with false. cbv iota.
    rewrite IH; [|exact Hrest|].
    + rewrite <- app_assoc. reflexivity.
    + rewrite <- app_assoc. exact Hchk.
Qed.

(** The tokens of the rendering of a range that has items. *)
Lemma generate_tokens_rendering it its rendering :
  join_items true (it :: its) = OK rendering ->
  generate_tokens rendering
    = item_tokens it ++ more_tokens its ++ [mk ENDMARKER []].
Proof.
  intros Hs. simpl in Hs.
  apply bind_ok in Hs as (si & Hit & Hs).
  apply bind_ok in Hs as (tail & Htail & Hs). injection Hs as <-.
  destruct (tokens_from_join_items [mk ENDMARKER []] its tail false Htail)
    as [Htok Hb].
  destruct (_repr_item_head it si Hit) as (c & rest & Hsi & Hblank & _).
  simpl app. unfold generate_tokens.
  assert (Hspan : span_len is_blank (si ++ tail) = O).
  { rewrite Hsi. simpl. rewrite Hblank. reflexivity. }
  rewrite Hspan. rewrite take_0, drop_0. simpl andb. cbv iota.
  rewrite (tokens_from_repr_item _ it si tail true Hit Hb), Htok.
  reflexivity.
Qed.

Lemma strip_nonempty_rendering it its rendering :
  join_items true (it :: its) = OK rendering ->
  strip_nonempty rendering = true.
Proof.
  intros Hs. simpl in Hs.
  apply bind_ok in Hs as (si & Hit & Hs).
  apply bind_ok in Hs as (tail & Htail & Hs). injection Hs as <-.
  destruct (_repr_item_head it si Hit) as (c & rest & -> & _ & Hspace).
  unfold strip_nonempty. simpl. rewrite Hspace. reflexivity.
Qed.

(** [validate] looks at the items only. *)
Lemma validate_items (Location : Type) r r' name value
    (location : option Location) :
  items r' = items r ->
  validate r' name value location = validate r name value location.
Proof.
  intros Heq. unfold validate, Range_repr, Range_str. rewrite Heq.
  reflexivity.
Qed.

(** C2, as the code has it.  For a range that was constructed and has at
    least one item, the construction of a range from its canonical
    rendering succeeds and yields the same items, so that [validate]
    behaves on the new range as on the old one for every value. *)
Theorem rendering_reads_back names text default r its :
  Range_init names text default = OK r ->
  items r = Some its ->
  its <> [] ->
  exists rendering r',
    Range_str r = OK rendering /\
    Range_init names (Some rendering) None = OK r' /\
    items r' = Some its /\
    forall (Location : Type) name value (location : option Location),
      validate r' name value location = validate r name value location.
Proof.
  intros Hinit Hits Hne.
  destruct (Range_init_wf _ _ _ _ _ Hinit Hits) as [Hwf Hchk].
  destruct its as [|it its]; [congruence|].
  destruct (join_items_wf true (it :: its) Hwf) as [rendering Hstr].
  exists rendering, (MkRange (Some rendering) (Some (it :: its))).
  split; [unfold Range_str; rewrite Hits; exact Hstr|].
  split; [|split; [reflexivity|]].
  - unfold Range_init. simpl.
    rewrite (replace_dots_rendering rendering)
      by (eapply join_items_chars; eauto).
    rewrite (strip_nonempty_rendering it its rendering Hstr).
    rewrite (generate_tokens_rendering it its rendering Hstr).
    rewrite (tokens_loop_rendering names its [] it Hwf Hchk). reflexivity.
  - intros Location name value location. apply validate_items.
    simpl. symmetry. exact Hits.
Qed.

Lemma rendering_reads_back_witness :
  exists rendering r',
    Range_str (MkRange (Some (u "cr, 0x1F:, :-5,-3"))
                 (Some [(Some 13, Some 13); (Some 31, None);
                        (None, Some (-5)); (Some (-3), Some (-3))]))
      = OK rendering /\
    Range_init example_names (Some rendering) None = OK r' /\
    items r' = Some [(Some 13, Some 13); (Some 31, None);
                     (None, Some (-5)); (Some (-3), Some (-3))] /\
    forall (Location : Type) name value (location : option Location),
      validate r' name value location
      = validate (MkRange (Some (u "cr, 0x1F:, :-5,-3"))
                    (Some [(Some 13, Some 13); (Some 31, None);
                           (None, Some (-5)); (Some (-3), Some (-3))]))
                 name value location.
Proof.
  apply (rendering_reads_back example_names
           (Some (u "cr, 0x1F:, :-5,-3")) None).
  - vm_compute. reflexivity.
  - reflexivity.
  - discriminate.
Defined.

(** C2 as stated fails for a range without items.  The range of the empty
    text is constructed and accepts every value; the range of the text ","
    is constructed with an empty list of items.  Both render as "None",
    and the construction from "None" fails: it is read as a symbolic name,
    which the table does not hold. *)
Lemma rendering_of_range_without_items_does_not_read_back :
  (exists r,
     Range_init example_names (Some (u "")) None = OK r /\
     items r = None /\
     Range_str r = OK (u "None")) /\
  (exists r,
     Range_init example_names (Some (u ",")) None = OK r /\
     items r = Some [] /\
     Range_str r = OK (u "None")) /\
  Range_init example_names (Some (u "None")) None
    = Raise (Interface (SymbolicNameUnknown (u "None"))).
Proof.
  split; [|split].
  - eexists. split; [vm_compute; reflexivity|]. split; reflexivity.
  - eexists. split; [vm_compute; reflexivity|]. split; reflexivity.
  - vm_compute. reflexivity.
Qed.

(* ===================================================================== *)
(** * Further properties: the items of a constructed range                *)
(* ===================================================================== *)

(** X1.  Every item of a constructed range has at least one limit, and
    its lower limit is not above its upper limit when both are present. *)
Theorem constructed_items_are_well_formed names text default r its :
  Range_init names text default = OK r ->
  items r = Some its ->
  forall lo up, In (lo, up) its ->
    (lo <> None \/ up <> None) /\
    (forall l h, lo = Some l -> up = Some h -> l <= h).
Proof.
  intros Hinit Hits lo up Hin.
  destruct (Range_init_wf _ _ _ _ _ Hinit Hits) as [Hwf _].
  rewrite List.Forall_forall in Hwf. specialize (Hwf _ Hin).
  destruct lo as [l|], up as [h|]; simpl in Hwf; try contradiction.
  - split; [left; discriminate|]. intros ? ? [= <-] [= <-]. exact Hwf.
  - split; [left; discriminate|]. intros ? ? _ [=].
  - split; [right; discriminate|]. intros ? ? [=].
Qed.

Lemma constructed_items_are_well_formed_witness :
  (Some 1 <> None \/ Some 5 <> None) /\
  (forall l h, Some 1 = Some l -> Some 5 = Some h -> l <= h).
Proof.
  apply (constructed_items_are_well_formed example_names
           (Some (u "1...5, :-3")) None
           (MkRange (Some (replace_dots (u "1...5, :-3")))
                    (Some [(Some 1, Some 5); (None, Some (-3))]))
           [(Some 1, Some 5); (None, Some (-3))]).
  - vm_compute. reflexivity.
  - reflexivity.
  - simpl. left. reflexivity.
Defined.

Lemma later_limits_outside names text default r pre a mid b post :
  Range_init names text default = OK r ->
  items r = Some (pre ++ a :: mid ++ b :: post) ->
  (forall l, fst b = Some l -> ~ inside a l) /\
  (forall h, snd b = Some h -> ~ inside a h).
Proof.
  intros Hinit Hits.
  destruct (Range_init_wf _ _ _ _ _ Hinit Hits) as [_ Hchk].
  specialize (Hchk (pre ++ a :: mid) b post).
  rewrite <- app_assoc in Hchk. specialize (Hchk eq_refl).
  rewrite List.Forall_forall in Hchk.
  assert (Hov : _items_overlap a b = false).
  { apply Hchk. apply in_or_app. right. left. reflexivity. }
  unfold _items_overlap in Hov. apply orb_false_iff in Hov as [Hlo Hup].
  split; intros v Hv Hin; apply insideb_spec in Hin; unfold insideb in Hin.
  - rewrite Hv in Hlo. congruence.
  - rewrite Hv in Hup. congruence.
Qed.

(** X2.  In a constructed range no limit of an item lies inside an item
    that comes before it in the list. *)
Theorem later_limits_are_outside_earlier_items
    names text default r pre a mid b post :
  Range_init names text default = OK r ->
  items r = Some (pre ++ a :: mid ++ b :: post) ->
  (forall l, fst b = Some l -> ~ inside a l) /\
  (forall h, snd b = Some h -> ~ inside a h).
Proof. apply later_limits_outside. Qed.

Lemma later_limits_are_outside_earlier_items_witness :
  (forall l, fst (Some 1, Some 10) = Some l -> ~ inside (Some 3, Some 4) l) /\
  (forall h, snd (Some 1, Some 10) = Some h -> ~ inside (Some 3, Some 4) h).
Proof.
  apply (later_limits_are_outside_earlier_items example_names
           (Some (u "3:4, 1:10")) None
           (MkRange (Some (u "3:4, 1:10"))
                    (Some [(Some 3, Some 4); (Some 1, Some 10)]))
           [] (Some 3, Some 4) [] (Some 1, Some 10) []).
  - vm_compute. reflexivity.
  - reflexivity.
Defined.

(** X3.  For two well-formed items, [_items_overlap] applied in both
    directions decides whether the items share a value: a single call
    that answers True is always right, and two items share a value exactly
    when one of the two calls answers True. *)
Theorem overlap_both_ways_is_intersection (a b : item) :
  wf_item a -> wf_item b ->
  (_items_overlap a b = true -> exists v, inside a v /\ inside b v) /\
  ((exists v, inside a v /\ inside b v) <->
     _items_overlap a b = true \/ _items_overlap b a = true).
Proof.
  intros Ha Hb.
  assert (Hsound : forall x y, wf_item x -> wf_item y ->
            _items_overlap x y = true -> exists v, inside x v /\ inside y v).
  { intros [[xl|] [xh|]] [[yl|] [yh|]] Hx Hy; simpl in Hx, Hy;
      try contradiction; unfold _items_overlap; simpl;
      rewrite ?Z.geb_leb, ?orb_false_r; intros H;
      repeat match goal with
      | H : _ || _ = true |- _ => apply orb_true_iff in H; destruct H
      | H : _ && _ = true |- _ => apply andb_true_iff in H; destruct H
      | H : (_ <=? _) = true |- _ => apply Z.leb_le in H
      end; try discriminate;
      first [ exists yl; simpl; lia | exists yh; simpl; lia ]. }
  split; [apply Hsound; assumption|]. split.
  - intros (v & Hva & Hvb).
    destruct a as [[al|] [ah|]], b as [[bl|] [bh|]]; simpl in *;
      try contradiction; unfold _items_overlap; simpl;
      rewrite ?Z.geb_leb, ?orb_false_r, ?orb_true_iff, ?andb_true_iff,
              ?Z.leb_le; lia.
  - intros [H | H]; [apply Hsound in H | apply Hsound in H]; try assumption.
    destruct H as (v & H1 & H2). exists v. tauto.
Qed.

Lemma overlap_both_ways_is_intersection_witness :
  (_items_overlap (Some 3, Some 4) (Some 1, Some 10) = true ->
     exists v, inside (Some 3, Some 4) v /\ inside (Some 1, Some 10) v) /\
  ((exists v, inside (Some 3, Some 4) v /\ inside (Some 1, Some 10) v) <->
     _items_overlap (Some 3, Some 4) (Some 1, Some 10) = true \/
     _items_overlap (Some 1, Some 10) (Some 3, Some 4) = true).
Proof.
  apply (overlap_both_ways_is_intersection (Some 3, Some 4) (Some 1, Some 10));
    simpl; lia.
Defined.

(** X4.  In a constructed range two items can share a value only when
    the later one encloses the earlier one: every value inside the
    earlier item is then inside the later item. *)
Theorem items_overlap_only_by_enclosure
    names text default r pre a mid b post v w :
  Range_init names text default = OK r ->
  items r = Some (pre ++ a :: mid ++ b :: post) ->
  inside a v -> inside b v ->
  inside a w -> inside b w.
Proof.
  intros Hinit Hits Hva Hvb Hwa.
  destruct (later_limits_outside _ _ _ _ _ _ _ _ _ Hinit Hits) as [Hlo Hup].
  destruct (Range_init_wf _ _ _ _ _ Hinit Hits) as [Hwf _].
  rewrite List.Forall_forall in Hwf.
  assert (Hwa' : wf_item a).
  { apply Hwf. apply in_or_app. right. left. reflexivity. }
  assert (Hwb' : wf_item b).
  { apply Hwf. apply in_or_app. right. right. apply in_or_app. right.
    left. reflexivity. }
  destruct a as [[al|] [ah|]], b as [[bl|] [bh|]]; simpl in *;
    try contradiction;
    try specialize (Hlo _ eq_refl); try specialize (Hup _ eq_refl); lia.
Qed.

Lemma items_overlap_only_by_enclosure_witness :
  inside (Some 1, Some 10) 4.
Proof.
  apply (items_overlap_only_by_enclosure example_names
           (Some (u "3:4, 1:10")) None
           (MkRange (Some (u "3:4, 1:10"))
                    (Some [(Some 3, Some 4); (Some 1, Some 10)]))
           [] (Some 3, Some 4) [] (Some 1, Some 10) [] 3 4).
  - vm_compute. reflexivity.
  - reflexivity.
  - simpl. lia.
  - simpl. lia.
  - simpl. lia.
Defined.

(* ===================================================================== *)
(** * Further properties: text, default and description                   *)
(* ===================================================================== *)

(** X5.  A text that is not blank makes the default irrelevant: the
    construction gives the same result (range or error) with any default
    that is not blank as without a default. *)
Theorem default_is_ignored_for_text names t d :
  strip_nonempty t = true ->
  strip_nonempty d = true ->
  Range_init names (Some t) (Some d) = Range_init names (Some t) None.
Proof.
  intros Ht Hd. unfold Range_init. simpl. rewrite Hd. simpl.
  rewrite strip_nonempty_replace_dots, Ht. reflexivity.
Qed.

Lemma default_is_ignored_for_text_witness :
  Range_init example_names (Some (u "1...5")) (Some (u "7"))
  = Range_init example_names (Some (u "1...5")) None.
Proof.
  apply (default_is_ignored_for_text example_names (u "1...5") (u "7"));
    reflexivity.
Defined.

(** X6.  When the text is [None] or blank, a default that is not blank
    takes its place as it is written: the description of the result is
    the default, character for character, and three full stops in it are
    not replaced.  For a default without three full stops in a row the
    construction gives what it gives for the default passed as the
    text. *)
Theorem default_replaces_blank_text names text d :
  match text with
  | None => True
  | Some t => strip_nonempty t = false
  end ->
  strip_nonempty d = true ->
  (forall r, Range_init names text (Some d) = OK r ->
     description r = Some d /\
     exists its, items r = Some its /\
       tokens_loop names [] group_start (generate_tokens d) = OK its) /\
  (replace_dots d = d ->
     Range_init names text (Some d) = Range_init names (Some d) None).
Proof.
  intros Hblank Hd.
  assert (Hrun : Range_init names text (Some d) =
                 (its <- from_tokenizer (generate_tokens d)
                           (tokens_loop names [] group_start
                              (generate_tokens d)) ;;
                  OK (MkRange (Some d) (Some its)))).
  { unfold Range_init. simpl. rewrite Hd. simpl.
    destruct text as [t|]; simpl; [|reflexivity].
    rewrite strip_nonempty_replace_dots, Hblank. reflexivity. }
  split.
  - intros r Hr. rewrite Hrun in Hr.
    apply bind_ok in Hr as (its & Hits & Hr). injection Hr as <-.
    apply from_tokenizer_ok in Hits.
    split; [reflexivity|]. exists its. split; [reflexivity | exact Hits].
  - intros Hplain. rewrite Hrun. unfold Range_init. simpl.
    rewrite Hplain, Hd. reflexivity.
Qed.

Lemma default_replaces_blank_text_witness :
  (forall r, Range_init example_names (Some (u " ")) (Some (u "1:40")) = OK r ->
     description r = Some (u "1:40") /\
     exists its, items r = Some its /\
       tokens_loop example_names [] group_start (generate_tokens (u "1:40"))
       = OK its) /\
  (replace_dots (u "1:40") = u "1:40" ->
     Range_init example_names (Some (u " ")) (Some (u "1:40"))
     = Range_init example_names (Some (u "1:40")) None).
Proof.
  apply (default_replaces_blank_text example_names (Some (u " ")) (u "1:40"));
    reflexivity.
Defined.

Lemma replace_dots_cons c rest :
  replace_dots (c :: rest) =
    if three_dots (c :: rest) then 8230 :: replace_dots (drop 2 rest)
    else c :: replace_dots rest.
Proof. destruct rest as [|c2 [|c3 rest3]]; reflexivity. Qed.

Lemma three_dots_head c rest : three_dots (c :: rest) = true -> c = 46.
Proof.
  destruct rest as [|c2 [|c3 rest3]]; simpl; try discriminate.
  intros H. bool_to_Z. assumption.
Qed.

(** A full stop at the head of the result was at the head of the text. *)
Lemma replace_dots_head_dot s x tail :
  replace_dots s = x :: tail -> x = 46 ->
  exists rest, s = 46 :: rest /\ tail = replace_dots rest.
Proof.
  destruct s as [|c rest]; [discriminate|]. rewrite replace_dots_cons.
  destruct (three_dots (c :: rest)).
  - intros [= <- _] Hx. discriminate.
  - intros [= -> <-] ->. eauto.
Qed.

Lemma three_dots_replace_dots c rest :
  three_dots (c :: rest) = false ->
  three_dots (c :: replace_dots rest) = false.
Proof.
  intros Hno. destruct (three_dots (c :: replace_dots rest)) eqn:Hyes;
    [|reflexivity].
  exfalso.
  destruct (replace_dots rest) as [|x2 [|x3 tail]] eqn:Hr;
    try discriminate.
  simpl in Hyes. bool_to_Z. subst.
  destruct (replace_dots_head_dot _ _ _ Hr eq_refl) as (rest2 & -> & Htail).
  symmetry in Htail.
  destruct (replace_dots_head_dot _ _ _ Htail eq_refl) as (rest3 & -> & _).
  discriminate.
Qed.

(** Replacing the three full stops twice is replacing them once. *)
Lemma replace_dots_idempotent text :
  replace_dots (replace_dots text) = replace_dots text.
Proof.
  remember (length text) as n eqn:Hn.
  assert (Hle : (length text <= n)%nat) by lia. clear Hn.
  revert text Hle. induction n as [|n IH]; intros text Hle.
  - destruct text; [reflexivity | simpl in Hle; lia].
  - destruct text as [|c rest]; [reflexivity|]. simpl in Hle.
    rewrite (replace_dots_cons c rest).
    destruct (three_dots (c :: rest)) eqn:Hd.
    + assert (Hnd : three_dots (8230 :: replace_dots (drop 2 rest)) = false).
      { destruct (replace_dots (drop 2 rest)) as [|? [|? ?]]; reflexivity. }
      rewrite replace_dots_cons, Hnd. f_equal. apply IH.
      rewrite length_drop. lia.
    + rewrite replace_dots_cons, (three_dots_replace_dots c rest Hd).
      f_equal. apply IH. lia.
Qed.

(** X7.  Three full stops and the ellipsis character U+2026 are the same
    to the constructor: a text and the text in which every run of three
    full stops is replaced by U+2026 give the same result, description
    included. *)
Theorem three_full_stops_are_the_ellipsis names text default :
  Range_init names (Some (replace_dots text)) default
  = Range_init names (Some text) default.
Proof.
  unfold Range_init. simpl. rewrite replace_dots_idempotent. reflexivity.
Qed.

(** X14.  A constructed range has a description exactly when it has a
    list of items, and a description is never blank. *)
Theorem description_and_items_go_together names text default r :
  Range_init names text default = OK r ->
  (description r = None <-> items r = None) /\
  (forall t, description r = Some t -> strip_nonempty t = true).
Proof.
  intros Hinit.
  destruct (Range_init_ok _ _ _ _ Hinit)
    as [[Hd Hi] | (t & its & Hd & Hi & Ht & _)]; rewrite Hd, Hi.
  - split; [tauto | discriminate].
  - split; [split; discriminate|]. intros t' [= <-]. exact Ht.
Qed.

Lemma description_and_items_go_together_witness :
  (description (MkRange (Some (u "1,")) (Some [(Some 1, Some 1)])) = None <->
   items (MkRange (Some (u "1,")) (Some [(Some 1, Some 1)])) = None) /\
  (forall t, description (MkRange (Some (u "1,")) (Some [(Some 1, Some 1)]))
             = Some t -> strip_nonempty t = true).
Proof.
  apply (description_and_items_go_together example_names
           (Some (u "1,")) None).
  vm_compute. reflexivity.
Defined.

(* ===================================================================== *)
(** * Further properties: colon, ellipsis and the rendering               *)
(* ===================================================================== *)

(** X8.  The colon and the ellipsis character are synonyms: exchanging
    one for the other anywhere in a token stream does not change whether
    the construction succeeds, nor the items it yields. *)
Theorem colon_and_ellipsis_are_synonyms names tokens1 tokens2 :
  Forall2 same_reading tokens1 tokens2 ->
  forall its g res,
    tokens_loop names its g tokens1 = OK res <->
    tokens_loop names its g tokens2 = OK res.
Proof.
  induction 1 as [|a b tokens1 tokens2 Hab _ IH]; intros its g res;
    [reflexivity|].
  destruct Hab as [<- | [Ha Hb]].
  - simpl. destruct (negb (is_eof_token a) && negb (is_comma_token a)).
    + destruct (item_step names g a); simpl; [apply IH | reflexivity].
    + destruct (decide_result g); simpl; [|reflexivity].
      destruct (append_result its a0); simpl; [|reflexivity].
      destruct (is_eof_token a); [reflexivity | apply IH].
  - assert (Hea : negb (is_eof_token a) && negb (is_comma_token a) = true)
      by (destruct Ha as [-> | ->]; reflexivity).
    assert (Heb : negb (is_eof_token b) && negb (is_comma_token b) = true)
      by (destruct Hb as [-> | ->]; reflexivity).
    simpl. rewrite Hea, Heb.
    rewrite (item_step_ellipsis names g a Ha), (item_step_ellipsis names g b Hb).
    destruct (after_hyphen g); simpl; [split; discriminate | apply IH].
Qed.

Lemma colon_and_ellipsis_are_synonyms_witness :
  tokens_loop example_names [] group_start
    [mk NUMBER (u "1"); mk OP [58]; mk NUMBER (u "5"); mk ENDMARKER []]
    = OK [(Some 1, Some 5)] <->
  tokens_loop example_names [] group_start
    [mk NUMBER (u "1"); mk ERRORTOKEN ELLIPSIS; mk NUMBER (u "5");
     mk ENDMARKER []]
    = OK [(Some 1, Some 5)].
Proof.
  apply (colon_and_ellipsis_are_synonyms example_names).
  constructor; [left; reflexivity|].
  constructor; [right; split; [left | right]; reflexivity|].
  constructor; [left; reflexivity|].
  constructor; [left; reflexivity|].
  constructor.
Defined.

(** The construction from the rendering of well-formed, checked items. *)
Lemma Range_init_rendering names it its rendering :
  Forall wf_item (it :: its) -> checked (it :: its) ->
  join_items true (it :: its) = OK rendering ->
  Range_init names (Some rendering) None
    = OK (MkRange (Some rendering) (Some (it :: its))).
Proof.
  intros Hwf Hchk Hstr. unfold Range_init. simpl.
  rewrite (replace_dots_rendering rendering)
    by (eapply join_items_chars; eauto).
  rewrite (strip_nonempty_rendering it its rendering Hstr).
  rewrite (generate_tokens_rendering it its rendering Hstr).
  rewrite (tokens_loop_rendering names its [] it Hwf Hchk). reflexivity.
Qed.

(** X9.  The canonical rendering is a fixed point: for a constructed range
    with at least one item, the range constructed from its rendering has
    the rendering as its description and renders as the same text. *)
Theorem rendering_is_a_fixed_point names text default r its rendering :
  Range_init names text default = OK r ->
  items r = Some its ->
  its <> [] ->
  Range_str r = OK rendering ->
  exists r',
    Range_init names (Some rendering) None = OK r' /\
    description r' = Some rendering /\
    Range_str r' = OK rendering.
Proof.
  intros Hinit Hits Hne Hstr.
  destruct (Range_init_wf _ _ _ _ _ Hinit Hits) as [Hwf Hchk].
  destruct its as [|it its]; [congruence|].
  unfold Range_str in Hstr. rewrite Hits in Hstr.
  exists (MkRange (Some rendering) (Some (it :: its))).
  split; [apply Range_init_rendering; assumption|].
  split; [reflexivity | exact Hstr].
Qed.

Lemma rendering_is_a_fixed_point_witness :
  exists r',
    Range_init example_names (Some (u "13, 31:, :-5, -3")) None = OK r' /\
    description r' = Some (u "13, 31:, :-5, -3") /\
    Range_str r' = OK (u "13, 31:, :-5, -3").
Proof.
  apply (rendering_is_a_fixed_point example_names
           (Some (u "cr, 0x1F:, :-5,-3")) None
           (MkRange (Some (u "cr, 0x1F:, :-5,-3"))
              (Some [(Some 13, Some 13); (Some 31, None);
                     (None, Some (-5)); (Some (-3), Some (-3))]))
           [(Some 13, Some 13); (Some 31, None);
            (None, Some (-5)); (Some (-3), Some (-3))]).
  - vm_compute. reflexivity.
  - reflexivity.
  - discriminate.
  - vm_compute. reflexivity.
Defined.

Lemma rendering_is_not_None it its rendering :
  join_items true (it :: its) = OK rendering -> rendering <> str_None.
Proof.
  intros Hstr Heq. apply join_items_chars in Hstr. rewrite Heq in Hstr.
  inversion Hstr as [|? ? Hc _]; subst.
  destruct Hc as [Hc | [Hc | [Hc | [Hc | Hc]]]]; discriminate.
Qed.

(** X10.  The canonical rendering tells constructed ranges apart by their
    items: two constructed ranges with the same rendering show the same
    items (a range whose items are [None] and a range with an empty list
    both render as None and show no item). *)
Theorem rendering_determines_items
    names1 text1 default1 r1 names2 text2 default2 r2 :
  Range_init names1 text1 default1 = OK r1 ->
  Range_init names2 text2 default2 = OK r2 ->
  Range_str r1 = Range_str r2 ->
  shown_items r1 = shown_items r2.
Proof.
  intros H1 H2 Hstr. unfold shown_items, Range_str in *.
  destruct (items r1) as [[|a1 its1]|] eqn:Hi1,
           (items r2) as [[|a2 its2]|] eqn:Hi2; try reflexivity.
  all: try (destruct (Range_init_wf _ _ _ _ _ H1 Hi1) as [Hwf1 Hchk1];
            destruct (join_items_wf true _ Hwf1) as [s1 Hs1]).
  all: try (destruct (Range_init_wf _ _ _ _ _ H2 Hi2) as [Hwf2 Hchk2];
            destruct (join_items_wf true _ Hwf2) as [s2 Hs2]).
  all: try (exfalso; rewrite Hs1 in Hstr; injection Hstr as Hstr;
            exact (rendering_is_not_None _ _ _ Hs1 Hstr)).
  all: try (exfalso; rewrite Hs2 in Hstr; injection Hstr as Hstr;
            exact (rendering_is_not_None _ _ _ Hs2 (eq_sym Hstr))).
  rewrite Hs1, Hs2 in Hstr. injection Hstr as <-.
  pose proof (Range_init_rendering names1 a1 its1 s1 Hwf1 Hchk1 Hs1) as Ha.
  pose proof (Range_init_rendering names1 a2 its2 s1 Hwf2 Hchk2 Hs2) as Hb.
  rewrite Ha in Hb. injection Hb as -> ->. reflexivity.
Qed.

Lemma rendering_determines_items_witness :
  shown_items (MkRange (Some (u "1:5, cr")) (Some [(Some 1, Some 5);
                                                   (Some 13, Some 13)]))
  = shown_items (MkRange (Some (u "0x1:5,13"))
                   (Some [(Some 1, Some 5); (Some 13, Some 13)])).
Proof.
  apply (rendering_determines_items
           example_names (Some (u "1:5, cr")) None _
           example_names (Some (u "0x1:5,13")) None _).
  - vm_compute. reflexivity.
  - vm_compute. reflexivity.
  - vm_compute. reflexivity.
Defined.

(* ===================================================================== *)
(** * Further properties: validation and the loops                        *)
(* ===================================================================== *)

Lemma existsb_false {A} (f : A -> bool) l :
  existsb f l = false <-> forall x, In x l -> f x = false.
Proof.
  induction l as [|a l IH]; simpl.
  - split; [contradiction | reflexivity].
  - rewrite orb_false_iff, IH. split.
    + intros [Ha Hl] x [<- | Hx]; auto.
    + intros H. split; [apply H; left; reflexivity|].
      intros x Hx. apply H. right. exact Hx.
Qed.

(** [validate] on well-formed items succeeds exactly when some item holds
    the value. *)
Lemma validate_ok_iff (Location : Type) r its name value
    (location : option Location) :
  items r = Some its -> Forall wf_item its -> name <> [] ->
  (validate r name value location = OK tt <->
   existsb (fun it => insideb it value) its = true).
Proof.
  intros Hits Hwf Hname. unfold validate.
  rewrite bool_decide_eq_false_2 by exact Hname. simpl.
  rewrite Hits, (validate_loop_wf its value Hwf). simpl.
  destruct (existsb _ its); [tauto|].
  destruct (Range_repr r); simpl; split; discriminate.
Qed.

(** X11.  A range accepts at least what a range with fewer items accepts:
    when every item of a constructed range is an item of another one,
    every value the first accepts is accepted by the second, whatever the
    order of the items. *)
Theorem more_items_accept_more (Location : Type)
    names1 text1 default1 r1 its1 names2 text2 default2 r2 its2
    name value (location : option Location) :
  Range_init names1 text1 default1 = OK r1 -> items r1 = Some its1 ->
  Range_init names2 text2 default2 = OK r2 -> items r2 = Some its2 ->
  (forall it, In it its1 -> In it its2) ->
  name <> [] ->
  validate r1 name value location = OK tt ->
  validate r2 name value location = OK tt.
Proof.
  intros H1 Hi1 H2 Hi2 Hincl Hname Hok.
  destruct (Range_init_wf _ _ _ _ _ H1 Hi1) as [Hwf1 _].
  destruct (Range_init_wf _ _ _ _ _ H2 Hi2) as [Hwf2 _].
  apply (validate_ok_iff Location r1 its1) in Hok; try assumption.
  apply (validate_ok_iff Location r2 its2); try assumption.
  apply existsb_exists in Hok as (it & Hin & Hacc).
  apply existsb_exists. exists it. split; [apply Hincl; exact Hin | exact Hacc].
Qed.

Lemma more_items_accept_more_witness :
  validate (MkRange (Some (u "7, 1:5")) (Some [(Some 7, Some 7);
                                               (Some 1, Some 5)]))
           (u "size") 3 (Some tt) = OK tt.
Proof.
  apply (more_items_accept_more unit
           example_names (Some (u "1:5")) None
           (MkRange (Some (u "1:5")) (Some [(Some 1, Some 5)]))
           [(Some 1, Some 5)]
           example_names (Some (u "7, 1:5")) None
           (MkRange (Some (u "7, 1:5")) (Some [(Some 7, Some 7);
                                               (Some 1, Some 5)]))
           [(Some 7, Some 7); (Some 1, Some 5)]).
  - vm_compute. reflexivity.
  - reflexivity.
  - vm_compute. reflexivity.
  - reflexivity.
  - intros it [<- | []]. simpl. auto.
  - discriminate.
  - vm_compute. reflexivity.
Defined.

Lemma tokens_loop_length names tokens : forall its g res,
  tokens_loop names its g tokens = OK res ->
  (length res <= length its + S (count_commas tokens))%nat.
Proof.
  induction tokens as [|t tokens IH]; intros its g res Hrun; [discriminate|].
  simpl in Hrun. simpl count_commas.
  destruct (negb (is_eof_token t) && negb (is_comma_token t)) eqn:Hend.
  - apply bind_ok in Hrun as (g' & _ & Hrun). apply IH in Hrun. lia.
  - apply bind_ok in Hrun as (res0 & _ & Hrun).
    apply bind_ok in Hrun as (its' & Happ & Hrun).
    assert (Hlen : (length its' <= S (length its))%nat).
    { destruct res0 as [new|]; simpl in Happ.
      - apply bind_ok in Happ as (? & _ & Happ). injection Happ as <-.
        rewrite length_app. simpl. lia.
      - injection Happ as <-. lia. }
    destruct (is_eof_token t) eqn:Heof.
    + injection Hrun as <-. lia.
    + simpl in Hend. apply negb_false_iff in Hend. rewrite Hend.
      apply IH in Hrun. lia.
Qed.

(** X12.  A comma separates at most two items: a constructed range with a
    description has at most one item more than its description has comma
    tokens. *)
Theorem items_are_bounded_by_commas names text default r t its :
  Range_init names text default = OK r ->
  description r = Some t ->
  items r = Some its ->
  (length its <= S (count_commas (generate_tokens t)))%nat.
Proof.
  intros Hinit Hd Hi.
  destruct (Range_init_ok _ _ _ _ Hinit)
    as [[Hd' _] | (t' & its' & Hd' & Hi' & _ & Hrun)]; [congruence|].
  assert (t' = t) by congruence. assert (its' = its) by congruence. subst.
  apply tokens_loop_length in Hrun. simpl in Hrun. exact Hrun.
Qed.

Lemma items_are_bounded_by_commas_witness :
  le (length [(Some 1, Some 1); (Some 2, Some 2); (Some 3, Some 3)])
     (S (count_commas (generate_tokens (u "1, 2,, 3")))).
Proof.
  apply (items_are_bounded_by_commas example_names
           (Some (u "1, 2,, 3")) None
           (MkRange (Some (u "1, 2,, 3"))
              (Some [(Some 1, Some 1); (Some 2, Some 2); (Some 3, Some 3)]))).
  - vm_compute. reflexivity.
  - reflexivity.
  - reflexivity.
Defined.

Lemma tokens_from_comma final rest fresh :
  tokens_from final O fresh 0 (44 :: rest)
    = mk OP [44] :: tokens_from final O false 0 rest.
Proof.
  assert (Hscan : scan_token fresh (0 <? 0) (44 :: rest)
                  = Found (mk OP [44]) 1).
  { destruct fresh, rest as [|c rest]; try reflexivity;
      unfold scan_token; simpl; rewrite andb_false_r; reflexivity. }
  unfold tokens_from at 1. fold tokens_from. simpl is_blank. cbv iota.
  rewrite Hscan. destruct rest; reflexivity.
Qed.

Lemma tokens_from_commas final n : forall fresh,
  tokens_from final O fresh 0 (repeat 44 n) = repeat (mk OP [44]) n ++ final.
Proof.
  induction n as [|n IH]; intros fresh; [reflexivity|].
  simpl repeat. rewrite tokens_from_comma, IH. reflexivity.
Qed.

Lemma tokens_loop_commas names n :
  tokens_loop names [] group_start (repeat (mk OP [44]) n ++ [mk ENDMARKER []])
  = OK [].
Proof. induction n as [|n IH]; [reflexivity | exact IH]. Qed.

(** X13.  A text of commas only is not the empty text: the range is
    constructed with an empty list of items, and, unlike the range of a
    blank text, it rejects every value; the message names the range as
    None. *)
Theorem commas_only_reject_every_value (Location : Type) names n name :
  (0 < n)%nat ->
  name <> [] ->
  exists r,
    Range_init names (Some (repeat 44 n)) None = OK r /\
    description r = Some (repeat 44 n) /\
    items r = Some [] /\
    forall value (location : option Location),
      validate r name value location =
        Raise (RangeValueError
                 (name ++ u " is " ++ str_int value
                  ++ u " but must be within range: None") location).
Proof.
  intros Hn Hname. exists (MkRange (Some (repeat 44 n)) (Some [])).
  split; [|split; [reflexivity | split; [reflexivity|]]].
  - assert (Hchars : Forall render_char (repeat 44 n)).
    { apply List.Forall_forall. intros c Hc. apply repeat_spec in Hc. subst.
      right. right. right. left. reflexivity. }
    unfold Range_init. simpl. rewrite (replace_dots_rendering _ Hchars).
    destruct n as [|n]; [lia|]. simpl repeat at 1.
    change (strip_nonempty (44 :: repeat 44 n)) with true. cbv iota.
    assert (Htok : generate_tokens (repeat 44 (S n))
                   = repeat (mk OP [44]) (S n) ++ [mk ENDMARKER []]).
    { assert (Hspan : span_len is_blank (repeat 44 (S n)) = O)
        by reflexivity.
      unfold generate_tokens. rewrite Hspan, take_0, drop_0.
      simpl andb. cbv iota. rewrite tokens_from_commas. reflexivity. }
    rewrite Htok, tokens_loop_commas. reflexivity.
  - intros value location. unfold validate.
    rewrite bool_decide_eq_false_2 by exact Hname. reflexivity.
Qed.

Lemma commas_only_reject_every_value_witness :
  exists r,
    Range_init example_names (Some (repeat 44 3)) None = OK r /\
    description r = Some (repeat 44 3) /\
    items r = Some [] /\
    forall value (location : option unit),
      validate r (u "size") value location =
        Raise (RangeValueError
                 (u "size" ++ u " is " ++ str_int value
                  ++ u " but must be within range: None") location).
Proof.
  apply (commas_only_reject_every_value unit example_names 3 (u "size")).
  - lia.
  - discriminate.
Defined.

Lemma long_value_of_no_stop names ty v h :
  long_value_of names ty v h <> Raise StopIteration.
Proof.
  unfold long_value_of. destruct ty.
  3: { destruct (pystr_eqb (lower (take 2 v)) (u "0x"));
       [destruct (int_of (drop 2 v) 16) | destruct (int_of v 10)];
       try destruct h; discriminate. }
  2: { destruct (names !! lower v); discriminate. }
  all: destruct v as [|q [|c [|q' [|x v]]]]; try discriminate;
    simpl; destruct (is_quote q), (is_quote q'); discriminate.
Qed.

Lemma item_step_no_stop names g t : item_step names g t <> Raise StopIteration.
Proof.
  unfold item_step.
  destruct (bool_decide (ttype t = NAME) || bool_decide (ttype t = NUMBER)
            || bool_decide (ttype t = STRING)).
  - pose proof (long_value_of_no_stop names (ttype t) (tvalue t)
                  (after_hyphen g)) as Hval.
    destruct (long_value_of names (ttype t) (tvalue t) (after_hyphen g))
      as [[[v s] h]|e]; simpl; [|congruence].
    destruct (ellipsis_found g);
      [destruct (g_upper g) | destruct (g_lower g)]; discriminate.
  - destruct (after_hyphen g); [discriminate|].
    destruct (bool_decide (ttype t = OP) && pystr_eqb (tvalue t) [45]);
      [discriminate|].
    destruct (pystr_eqb (tvalue t) ELLIPSIS || pystr_eqb (tvalue t) [58]);
      discriminate.
Qed.

Lemma decide_result_no_stop g : decide_result g <> Raise StopIteration.
Proof.
  unfold decide_result.
  destruct g as [[l|] [h|] e a]; simpl; destruct a, e; simpl;
    try discriminate.
  destruct (l >? h); discriminate.
Qed.

Lemma append_result_no_stop its res :
  append_result its res <> Raise StopIteration.
Proof.
  destruct res as [new|]; simpl; [|discriminate].
  assert (Hchk : check_overlap its new <> Raise StopIteration).
  { induction its as [|it its IH]; simpl; [discriminate|].
    destruct (_items_overlap it new); [|exact IH].
    destruct it as [[?|] [?|]]; simpl; try discriminate;
      try (destruct (_ =? _); simpl);
      destruct new as [[?|] [?|]]; simpl; try discriminate;
      destruct (_ =? _); discriminate. }
  destruct (check_overlap its new); simpl; [discriminate | congruence].
Qed.

Lemma tokens_loop_after_end names pre eof post :
  is_eof_token eof = true ->
  forall its g,
    tokens_loop names its g (pre ++ eof :: post)
    = tokens_loop names its g (pre ++ [eof]).
Proof.
  intros Heof. induction pre as [|t pre IH]; intros its g; simpl.
  - rewrite Heof. reflexivity.
  - destruct (negb (is_eof_token t) && negb (is_comma_token t)).
    + destruct (item_step names g t); simpl; [apply IH | reflexivity].
    + destruct (decide_result g); simpl; [|reflexivity].
      destruct (append_result its a); simpl; [|reflexivity].
      destruct (is_eof_token t); [reflexivity | apply IH].
Qed.

Lemma tokens_loop_no_stop names pre eof :
  is_eof_token eof = true ->
  forall its g, tokens_loop names its g (pre ++ [eof]) <> Raise StopIteration.
Proof.
  intros Heof. induction pre as [|t pre IH]; intros its g; simpl.
  - rewrite Heof. simpl.
    pose proof (decide_result_no_stop g) as Hd.
    destruct (decide_result g) as [res|e]; simpl; [|congruence].
    pose proof (append_result_no_stop its res) as Ha.
    destruct (append_result its res); simpl; [discriminate | congruence].
  - destruct (negb (is_eof_token t) && negb (is_comma_token t)).
    + pose proof (item_step_no_stop names g t) as Hs.
      destruct (item_step names g t); simpl; [apply IH | congruence].
    + pose proof (decide_result_no_stop g) as Hd.
      destruct (decide_result g) as [res|e]; simpl; [|congruence].
      pose proof (append_result_no_stop its res) as Ha.
      destruct (append_result its res); simpl; [|congruence].
      destruct (is_eof_token t); [discriminate | apply IH].
Qed.

(** X15.  The loop stops at the first end marker: the tokens that follow
    it are not read, and [next] never runs out of tokens, so the loop does
    not raise [StopIteration]; neither does the construction of a range
    from any text. *)
Theorem loop_stops_at_the_end_marker names its g pre eof post :
  is_eof_token eof = true ->
  tokens_loop names its g (pre ++ eof :: post)
    = tokens_loop names its g (pre ++ [eof]) /\
  tokens_loop names its g (pre ++ eof :: post) <> Raise StopIteration /\
  forall text default, Range_init names text default <> Raise StopIteration.
Proof.
  intros Heof. split; [apply tokens_loop_after_end; exact Heof|]. split.
  - rewrite tokens_loop_after_end by exact Heof.
    apply tokens_loop_no_stop. exact Heof.
  - intros text default. unfold Range_init.
    destruct (assert _ AssertionError) as [[]|e] eqn:Ha; simpl.
    2: { unfold assert in Ha. destruct default as [d|];
         [destruct (strip_nonempty d)|]; congruence. }
    assert (Hrun : forall t,
      (its0 <- from_tokenizer (generate_tokens t)
                 (tokens_loop names [] group_start (generate_tokens t)) ;;
       OK (MkRange (Some t) (Some its0))) <> Raise StopIteration).
    { intros t.
      destruct (tokens_loop names [] group_start (generate_tokens t))
        as [a|[]] eqn:Hloop; simpl; try discriminate.
      unfold ends_with_end_marker.
      destruct (last (generate_tokens t)) as [t'|] eqn:Hlast;
        [|discriminate].
      destruct (is_eof_token t') eqn:Ht'; [|discriminate].
      apply last_Some in Hlast as [front Hfront]. rewrite Hfront in Hloop.
      exfalso.
      exact (tokens_loop_no_stop names front t' Ht' [] group_start Hloop). }
    destruct default as [d|], text as [t|]; simpl;
      try destruct (strip_nonempty (replace_dots t)); simpl;
      try apply Hrun; discriminate.
Qed.

Lemma loop_stops_at_the_end_marker_witness :
  tokens_loop example_names [] group_start
    ([mk NUMBER (u "1")] ++ mk ENDMARKER [] :: [mk NUMBER (u "x")])
    = tokens_loop example_names [] group_start
        ([mk NUMBER (u "1")] ++ [mk ENDMARKER []]) /\
  tokens_loop example_names [] group_start
    ([mk NUMBER (u "1")] ++ mk ENDMARKER [] :: [mk NUMBER (u "x")])
    <> Raise StopIteration /\
  forall text default,
    Range_init example_names text default <> Raise StopIteration.
Proof.
  apply (loop_stops_at_the_end_marker example_names [] group_start
           [mk NUMBER (u "1")] (mk ENDMARKER []) [mk NUMBER (u "x")]).
  reflexivity.
Defined.

(** X16.  The overlap check is a validation of the limits: against
    well-formed items, a new item passes the check exactly when the loop
    of [validate] over those items rejects each limit the new item has. *)
Theorem overlap_check_is_validation_of_limits its lo up :
  Forall wf_item its ->
  (check_overlap its (lo, up) = OK tt <->
   (forall l, lo = Some l -> validate_loop its l = OK false) /\
   (forall h, up = Some h -> validate_loop its h = OK false)).
Proof.
  intros Hwf. rewrite check_overlap_ok, List.Forall_forall.
  assert (Hval : forall v, validate_loop its v = OK false <->
                 forall it, In it its -> _item_contains it (Some v) = false).
  { intros v. rewrite (validate_loop_wf its v Hwf).
    rewrite <- (existsb_false (fun it => insideb it v)).
    split; [intros [= ->]; reflexivity | intros ->; reflexivity]. }
  unfold _items_overlap. simpl. split.
  - intros H. split; intros v ->; apply Hval; intros it Hin;
      specialize (H it Hin); apply orb_false_iff in H; tauto.
  - intros [Hlo Hup] it Hin. apply orb_false_iff. split.
    + destruct lo as [l|]; [|reflexivity].
      exact (proj1 (Hval l) (Hlo l eq_refl) it Hin).
    + destruct up as [h|]; [|reflexivity].
      exact (proj1 (Hval h) (Hup h eq_refl) it Hin).
Qed.

Lemma overlap_check_is_validation_of_limits_witness :
  check_overlap [(Some 3, Some 4)] (Some 1, Some 10) = OK tt <->
   (forall l, Some 1 = Some l -> validate_loop [(Some 3, Some 4)] l = OK false) /\
   (forall h, Some 10 = Some h -> validate_loop [(Some 3, Some 4)] h = OK false).
Proof.
  apply (overlap_check_is_validation_of_limits [(Some 3, Some 4)]
           (Some 1) (Some 10)).
  repeat constructor. simpl. lia.
Defined.

(** X17.  The text forms of a constructed range never fail: [str] gives
    None when the range shows no item and otherwise a text made of
    digits, hyphens, colons, commas and spaces only, and [repr] gives the
    same text, between single quotes when the range shows an item. *)
Theorem str_and_repr_of_a_constructed_range names text default r :
  Range_init names text default = OK r ->
  exists s,
    Range_str r = OK s /\
    (shown_items r = [] -> s = str_None /\ Range_repr r = OK s) /\
    (shown_items r <> [] ->
       Forall render_char s /\ Range_repr r = OK (u "'" ++ s ++ u "'")).
Proof.
  intros Hinit. unfold shown_items, Range_str, Range_repr.
  destruct (items r) as [[|it its]|] eqn:Hits.
  - exists str_None. split; [reflexivity|]. split; [auto | congruence].
  - destruct (Range_init_wf _ _ _ _ _ Hinit Hits) as [Hwf _].
    destruct (join_items_wf true _ Hwf) as [s Hs].
    exists s. split; [exact Hs|]. split; [discriminate|]. intros _.
    split; [eapply join_items_chars; eauto|].
    unfold Range_str. rewrite Hits, Hs. reflexivity.
  - exists str_None. split; [reflexivity|]. split; [auto | congruence].
Qed.

Lemma str_and_repr_of_a_constructed_range_witness :
  exists s,
    Range_str (MkRange (Some (u "cr, :-5")) (Some [(Some 13, Some 13);
                                                  (None, Some (-5))])) = OK s /\
    (shown_items (MkRange (Some (u "cr, :-5")) (Some [(Some 13, Some 13);
                                                      (None, Some (-5))])) = []
     -> s = str_None /\
        Range_repr (MkRange (Some (u "cr, :-5")) (Some [(Some 13, Some 13);
                                                        (None, Some (-5))]))
        = OK s) /\
    (shown_items (MkRange (Some (u "cr, :-5")) (Some [(Some 13, Some 13);
                                                      (None, Some (-5))])) <> []
     -> Forall render_char s /\
        Range_repr (MkRange (Some (u "cr, :-5")) (Some [(Some 13, Some 13);
                                                        (None, Some (-5))]))
        = OK (u "'" ++ s ++ u "'")).
Proof.
  apply (str_and_repr_of_a_constructed_range example_names
           (Some (u "cr, :-5")) None).
  vm_compute. reflexivity.
Defined.

(* ===================================================================== *)
(** * Further properties: the listener of server.py                       *)
(* ===================================================================== *)

Lemma count_char_app c s t :
  count_char c (s ++ t) = (count_char c s + count_char c t)%nat.
Proof. apply count_occ_app. Qed.

Lemma count_char_replace_char c old new s :
  count_char c (replace_char old new s)
  = (count_char c new * count_char old s
     + (if Z.eqb c old then 0 else count_char c s))%nat.
Proof.
  unfold replace_char, count_char. induction s as [|x s IH]; simpl.
  - destruct (c =? old); lia.
  - rewrite count_occ_app, IH.
    destruct (x =? old) eqn:Hx; bool_to_Z.
    + subst x. destruct (Z.eq_dec old old) as [_|Hn]; [|congruence].
      destruct (Z.eq_dec old c) as [->|Hc].
      * rewrite Z.eqb_refl. lia.
      * destruct (c =? old) eqn:Hco; bool_to_Z; [congruence | lia].
    + destruct (Z.eq_dec x old) as [He|_]; [congruence|].
      simpl. destruct (Z.eq_dec x c) as [->|Hc].
      * destruct (c =? old) eqn:Hco; bool_to_Z; [congruence | lia].
      * destruct (c =? old); lia.
Qed.

(** The escaped text holds no angle bracket. *)
Lemma cgi_escape_no_angle c s :
  c = 60 \/ c = 62 -> count_char c (cgi_escape s) = O.
Proof.
  unfold cgi_escape. intros [-> | ->]; rewrite !count_char_replace_char;
    reflexivity.
Qed.

Lemma count_char_render c s :
  c = 60 \/ c = 62 -> Forall render_char s -> count_char c s = O.
Proof.
  intros Hc Hs. unfold count_char. apply count_occ_not_In.
  intros Hin. rewrite List.Forall_forall in Hs. specialize (Hs _ Hin).
  destruct Hs as [Hd | [-> | [-> | [-> | ->]]]];
    try (apply isdigit_range in Hd); destruct Hc; lia.
Qed.

Lemma fold_cells css row : forall self,
  fold_left (fun self item => wfile_write self (row_cell css item)) row self
  = MkListener (wfile self ++ map (row_cell css) row) (itemCount self)
               (acceptedCount self) (rejectedCount self).
Proof.
  induction row as [|item row IH]; intros self; simpl.
  - rewrite app_nil_r. destruct self; reflexivity.
  - rewrite IH. simpl. rewrite <- app_assoc. reflexivity.
Qed.

Lemma _writeRow_writes self row css :
  _writeRow self row css
  = MkListener (wfile self
                ++ (u "<tr>" ++ [10]) :: map (row_cell css) row
                ++ [u "</tr>" ++ [10]])
               (itemCount self) (acceptedCount self) (rejectedCount self).
Proof.
  unfold _writeRow. rewrite fold_cells. unfold wfile_write. simpl.
  rewrite <- !app_assoc. reflexivity.
Qed.

Lemma count_cells c css row :
  c = 60 \/ c = 62 -> count_char c css = O ->
  count_char c (concat (map (row_cell css) row)) = (2 * length row)%nat.
Proof.
  intros Hc Hcss. induction row as [|item row IH]; [reflexivity|].
  cbn [map concat]. rewrite count_char_app, IH. unfold row_cell.
  rewrite !count_char_app, Hcss, (cgi_escape_no_angle c item Hc).
  destruct Hc as [-> | ->]; simpl; lia.
Qed.

Lemma count_row c css row :
  c = 60 \/ c = 62 -> count_char c css = O ->
  count_char c (concat ((u "<tr>" ++ [10]) :: map (row_cell css) row
                        ++ [u "</tr>" ++ [10]]))
  = (2 + 2 * length row)%nat.
Proof.
  intros Hc Hcss. cbn [concat]. rewrite concat_app, !count_char_app.
  rewrite (count_cells c css row Hc Hcss).
  destruct Hc as [-> | ->]; simpl; lia.
Qed.

Lemma _writeTextRow_writes self text :
  _writeTextRow self text
  = MkListener (wfile self
                ++ [u "<tr>" ++ [10];
                    u "<td colspan=" ++ [34] ++ str_int (itemCount self) ++ [34]
                      ++ u ">" ++ cgi_escape text ++ u "</td>" ++ [10];
                    u "</tr>" ++ [10]])
               (itemCount self) (acceptedCount self) (rejectedCount self).
Proof.
  unfold _writeTextRow, wfile_write. simpl. rewrite <- !app_assoc.
  reflexivity.
Qed.

Lemma count_text_row c n text :
  c = 60 \/ c = 62 ->
  count_char c (concat [u "<tr>" ++ [10];
                        u "<td colspan=" ++ [34] ++ str_int n ++ [34]
                          ++ u ">" ++ cgi_escape text ++ u "</td>" ++ [10];
                        u "</tr>" ++ [10]]) = 4%nat.
Proof.
  intros Hc. cbn [concat]. rewrite !count_char_app.
  rewrite (count_char_render c (str_int n) Hc (str_int_chars n)).
  rewrite (cgi_escape_no_angle c text Hc).
  destruct Hc as [-> | ->]; reflexivity.
Qed.

(** X18.  The listener only appends to its output, and the data cannot
    open or close a tag: whatever the items of the row and the message
    hold, an event writes as many characters < and as many characters > as
    it writes tags (two for each row, two for each cell). *)
Theorem data_does_not_write_tags self ev c :
  c = 60 \/ c = 62 ->
  exists added,
    wfile (notify self ev) = wfile self ++ added /\
    count_char c (concat added) = tags_of ev.
Proof.
  intros Hc.
  assert (Hok : count_char c (u "ok") = O) by (destruct Hc as [-> | ->]; reflexivity).
  assert (Herr : count_char c (u "error") = O)
    by (destruct Hc as [-> | ->]; reflexivity).
  destruct ev as [row | row msg | row msg | msg | msg]; cbn [notify].
  - unfold acceptedRow. rewrite _writeRow_writes. cbn [wfile].
    eexists. split; [reflexivity|]. cbn [tags_of]. apply count_row; assumption.
  - unfold rejectedRow. rewrite _writeTextRow_writes, _writeRow_writes.
    cbn [wfile]. cbn [itemCount]. rewrite <- app_assoc.
    eexists. split; [reflexivity|].
    rewrite concat_app, count_char_app, count_row, count_text_row
      by assumption.
    cbn [tags_of]. lia.
  - unfold checkAtRowFailed. rewrite _writeTextRow_writes, _writeRow_writes.
    cbn [wfile]. cbn [itemCount]. rewrite <- app_assoc.
    eexists. split; [reflexivity|].
    rewrite concat_app, count_char_app, count_row, count_text_row
      by assumption.
    cbn [tags_of]. lia.
  - unfold checkAtEndFailed. rewrite _writeTextRow_writes. cbn [wfile].
    eexists. split; [reflexivity|]. cbn [tags_of]. apply count_text_row. exact Hc.
  - unfold dataFormatFailed. rewrite _writeTextRow_writes. cbn [wfile].
    eexists. split; [reflexivity|]. cbn [tags_of]. apply count_text_row. exact Hc.
Qed.

Lemma data_does_not_write_tags_witness :
  exists added,
    wfile (notify (MkListener [] 2 0 0)
             (RejectedRow [u "a<b"; u "x&y"] (u "1 > 0")))
    = wfile (MkListener [] 2 0 0) ++ added /\
    count_char 60 (concat added)
    = tags_of (RejectedRow [u "a<b"; u "x&y"] (u "1 > 0")).
Proof.
  apply (data_does_not_write_tags (MkListener [] 2 0 0)
           (RejectedRow [u "a<b"; u "x&y"] (u "1 > 0")) 60).
  left. reflexivity.
Defined.

Lemma notify_keeps_counts self ev :
  itemCount (notify self ev) = itemCount self /\
  acceptedCount (notify self ev) = acceptedCount self /\
  rejectedCount (notify self ev) = rejectedCount self.
Proof.
  destruct ev; simpl notify;
    unfold acceptedRow, rejectedRow, checkAtRowFailed, checkAtEndFailed,
           dataFormatFailed;
    rewrite ?_writeTextRow_writes, ?_writeRow_writes; simpl; auto.
Qed.

(** X19.  The listener never counts: after any sequence of events the
    counters of accepted and of rejected rows are still 0, as the
    constructor set them, and the number of items is the positive number
    the constructor was given. *)
Theorem listener_never_counts wfile0 n self events :
  Listener_init wfile0 n = OK self ->
  acceptedCount (fold_left notify events self) = 0 /\
  rejectedCount (fold_left notify events self) = 0 /\
  itemCount (fold_left notify events self) = n /\ 0 < n.
Proof.
  intros Hinit. unfold Listener_init in Hinit.
  destruct (n >? 0) eqn:Hn; [|discriminate]. simpl in Hinit.
  injection Hinit as <-.
  assert (Hkeep : forall evs l,
            itemCount (fold_left notify evs l) = itemCount l /\
            acceptedCount (fold_left notify evs l) = acceptedCount l /\
            rejectedCount (fold_left notify evs l) = rejectedCount l).
  { induction evs as [|ev evs IH]; intros l; simpl; [auto|].
    destruct (IH (notify l ev)) as (H1 & H2 & H3).
    destruct (notify_keeps_counts l ev) as (K1 & K2 & K3).
    rewrite H1, H2, H3. auto. }
  destruct (Hkeep events (MkListener wfile0 n 0 0)) as (H1 & H2 & H3).
  rewrite H1, H2, H3. simpl. bool_to_Z. repeat split; auto; lia.
Qed.

Lemma listener_never_counts_witness :
  acceptedCount (fold_left notify
                   [AcceptedRow [u "1"; u "2"]; RejectedRow [u "3"] (u "bad")]
                   (MkListener [] 2 0 0)) = 0 /\
  rejectedCount (fold_left notify
                   [AcceptedRow [u "1"; u "2"]; RejectedRow [u "3"] (u "bad")]
                   (MkListener [] 2 0 0)) = 0 /\
  itemCount (fold_left notify
               [AcceptedRow [u "1"; u "2"]; RejectedRow [u "3"] (u "bad")]
               (MkListener [] 2 0 0)) = 2 /\ 0 < 2.
Proof.
  apply (listener_never_counts [] 2 (MkListener [] 2 0 0)).
  reflexivity.
Defined.

(* ===================================================================== *)
(** * Further properties: the text "lower...upper"                        *)
(* ===================================================================== *)

(** The digits of a natural number, followed by the ellipsis character,
    are one NUMBER token. *)
Lemma number_len_str_N_ellipsis n tail :
  number_len (str_N n ++ 8230 :: tail) = length (str_N n).
Proof.
  set (rest := 8230 :: tail).
  pose proof (str_N_digits n) as Hdig.
  pose proof (str_N_nonempty n) as Hne.
  pose proof (str_N_leading n) as Hlead.
  assert (Hspan : span_len isdigit (str_N n ++ rest) = length (str_N n)).
  { apply span_len_all; [exact Hdig | reflexivity]. }
  assert (Hdrop : drop (length (str_N n)) (str_N n ++ rest) = rest).
  { apply drop_app_length. }
  unfold number_len. rewrite Hspan.
  destruct (str_N n) as [|c ds] eqn:Hs; [congruence|].
  change (length (c :: ds)) with (S (length ds)) in *.
  rewrite Hdrop.
  change (starts_with (is_either 106 74) rest) with false. cbv iota.
  assert (Hfloat : float_len ((c :: ds) ++ rest) = O).
  { unfold float_len. rewrite Hspan, Hdrop. reflexivity. }
  rewrite Hfloat.
  inversion Hdig as [|? ? Hc Hds]; subst.
  unfold integer_len. simpl app. cbv beta iota. rewrite Hc. simpl negb.
  cbv iota.
  destruct Hlead as [Hzero | (c' & ds' & Heq & Hnz)].
  - injection Hzero as -> ->. reflexivity.
  - injection Heq as <- <-.
    apply Z.eqb_neq in Hnz. rewrite Hnz. simpl negb. cbv iota.
    unfold with_long_suffix.
    assert (Hds' : span_len isdigit (ds ++ rest) = length ds).
    { apply span_len_all; [exact Hds | reflexivity]. }
    rewrite Hds'.
    change (drop (1 + length ds) (c :: ds ++ rest))
      with (drop (length ds) (ds ++ rest)).
    rewrite drop_app_length. reflexivity.
Qed.

Lemma tokens_from_str_N_ellipsis final n tail fresh :
  tokens_from final O fresh 0 (str_N n ++ 8230 :: tail)
    = mk NUMBER (str_N n) :: tokens_from final O false 0 (8230 :: tail).
Proof.
  pose proof (number_len_str_N_ellipsis n tail) as Hlen.
  pose proof (str_N_digits n) as Hdig.
  pose proof (str_N_nonempty n) as Hne.
  destruct (str_N n) as [|c ds] eqn:Hs; [congruence|].
  inversion Hdig as [|? ? Hc Hds]; subst.
  pose proof (scan_token_number fresh c ds (8230 :: tail) Hc Hlen) as Hscan.
  simpl app in *. unfold tokens_from at 1. fold tokens_from.
  rewrite (isdigit_not_blank c Hc).
  change (0 <? 0) with false. rewrite Hscan. simpl. f_equal.
  apply tokens_from_skip.
Qed.

Lemma tokens_from_str_int_ellipsis final n tail fresh :
  tokens_from final O fresh 0 (str_int n ++ 8230 :: tail)
    = num_tokens n ++ tokens_from final O false 0 (8230 :: tail).
Proof.
  rewrite str_int_abs. unfold num_tokens.
  destruct (n <? 0); simpl app.
  - destruct (str_N_head (Z.abs_N n)) as (c & ds & Hs & Hc).
    rewrite Hs. simpl app. rewrite (tokens_from_hyphen final c _ fresh Hc).
    f_equal. change (c :: ds ++ 8230 :: tail) with ((c :: ds) ++ 8230 :: tail).
    rewrite <- Hs. apply tokens_from_str_N_ellipsis.
  - apply tokens_from_str_N_ellipsis.
Qed.

Lemma tokens_from_ellipsis final rest fresh :
  tokens_from final O fresh 0 (8230 :: rest)
    = mk ERRORTOKEN ELLIPSIS :: tokens_from final O false 0 rest.
Proof.
  assert (Hscan : scan_token fresh (0 <? 0) (8230 :: rest)
                  = Found (mk ERRORTOKEN ELLIPSIS) 1).
  { destruct fresh, rest as [|c rest]; try reflexivity;
      unfold scan_token; simpl; rewrite ?andb_false_r; reflexivity. }
  unfold tokens_from at 1. fold tokens_from. simpl is_blank. cbv iota.
  rewrite Hscan. reflexivity.
Qed.

Lemma replace_dots_after_str_int n rest :
  replace_dots (str_int n ++ rest) = str_int n ++ replace_dots rest.
Proof.
  pose proof (str_int_chars n) as Hchars.
  induction Hchars as [|c s Hc _ IH]; [reflexivity|].
  simpl app. rewrite replace_dots_cons.
  destruct (three_dots (c :: s ++ rest)) eqn:Hd.
  - apply three_dots_head in Hd. apply render_char_not_dot in Hc.
    bool_to_Z. congruence.
  - rewrite IH. reflexivity.
Qed.

Lemma item_loop_ellipsis names g tokens :
  after_hyphen g = false ->
  item_loop names g (mk ERRORTOKEN ELLIPSIS :: tokens)
    = item_loop names (Group (g_lower g) (g_upper g) true false) tokens.
Proof.
  intros Hh. cbn [item_loop].
  change (is_eof_token (mk ERRORTOKEN ELLIPSIS)) with false.
  change (is_comma_token (mk ERRORTOKEN ELLIPSIS)) with false.
  simpl negb. simpl andb. cbv iota.
  rewrite (item_step_ellipsis names g (mk ERRORTOKEN ELLIPSIS))
    by (right; reflexivity).
  rewrite Hh. reflexivity.
Qed.

(** The text [lower...upper]: its tokens and what the loop makes of
    them. *)
Lemma tokens_of_interval_text lo up :
  generate_tokens (str_int lo ++ 8230 :: str_int up)
  = num_tokens lo ++ mk ERRORTOKEN ELLIPSIS :: num_tokens up
    ++ [mk ENDMARKER []].
Proof.
  unfold generate_tokens.
  assert (Hspan : span_len is_blank (str_int lo ++ 8230 :: str_int up) = O).
  { destruct (_repr_item_head (Some lo, None) (str_int lo ++ [58]) eq_refl)
      as (c & rest & Heq & Hblank & _).
    destruct (str_int lo) as [|c' s]; simpl in *.
    - reflexivity.
    - injection Heq as -> _. rewrite Hblank. reflexivity. }
  rewrite Hspan, take_0, drop_0. simpl andb. cbv iota.
  rewrite tokens_from_str_int_ellipsis, tokens_from_ellipsis.
  rewrite <- (app_nil_r (str_int up)) at 1.
  rewrite tokens_from_str_int by exact I.
  change (tokens_from [mk ENDMARKER []] O false 0 [])
    with [mk ENDMARKER []].
  reflexivity.
Qed.

Lemma Range_init_text names t :
  strip_nonempty t = true ->
  Range_init names (Some t) None
  = (its <- from_tokenizer (generate_tokens (replace_dots t))
              (tokens_loop names [] group_start
                 (generate_tokens (replace_dots t))) ;;
     OK (MkRange (Some (replace_dots t)) (Some its))).
Proof.
  intros Ht. unfold Range_init. simpl.
  rewrite strip_nonempty_replace_dots, Ht. reflexivity.
Qed.

Lemma Range_init_interval_text names lo up :
  Range_init names (Some (str_int lo ++ u "..." ++ str_int up)) None
  = if lo >? up then Raise (Interface (LowerGreaterThanUpper lo up))
    else OK (MkRange (Some (str_int lo ++ 8230 :: str_int up))
                     (Some [(Some lo, Some up)])).
Proof.
  assert (Hrep : replace_dots (str_int lo ++ u "..." ++ str_int up)
                 = str_int lo ++ 8230 :: str_int up).
  { rewrite replace_dots_after_str_int. f_equal.
    change (u "..." ++ str_int up) with (46 :: 46 :: 46 :: str_int up).
    rewrite replace_dots_cons. simpl three_dots. cbv iota.
    simpl drop. f_equal. rewrite drop_0.
    apply replace_dots_rendering, str_int_chars. }
  assert (Hstrip : strip_nonempty (str_int lo ++ 8230 :: str_int up) = true).
  { unfold strip_nonempty. rewrite existsb_app. simpl.
    rewrite orb_true_r. reflexivity. }
  rewrite Range_init_text
    by (rewrite <- strip_nonempty_replace_dots, Hrep; exact Hstrip).
  rewrite Hrep.
  rewrite tokens_of_interval_text, tokens_loop_item_loop.
  rewrite item_loop_num_tokens by reflexivity.
  rewrite item_loop_ellipsis by reflexivity.
  rewrite item_loop_num_tokens by reflexivity.
  rewrite item_loop_end by reflexivity.
  unfold store. simpl. unfold decide_result. simpl.
  destruct (lo >? up); reflexivity.
Qed.

(** X20.  The form of the docstring, "lower...upper" with two integers in
    decimal: when lower is not above upper, the range is constructed with
    the single item (lower, upper) and accepts exactly the values from
    lower to upper, both included; when lower is above upper the
    construction fails with the error on the order of the limits. *)
Theorem interval_text_accepts_its_interval
    (Location : Type) names lo up name :
  name <> [] ->
  (lo <= up ->
     exists r,
       Range_init names (Some (str_int lo ++ u "..." ++ str_int up)) None
         = OK r /\
       items r = Some [(Some lo, Some up)] /\
       forall value (location : option Location),
         validate r name value location = OK tt <-> lo <= value <= up) /\
  (lo > up ->
     Range_init names (Some (str_int lo ++ u "..." ++ str_int up)) None
       = Raise (Interface (LowerGreaterThanUpper lo up))).
Proof.
  intros Hname. rewrite Range_init_interval_text, Z.gtb_ltb. split.
  - intros Hle. destruct (up <? lo) eqn:Hlt; [bool_to_Z; lia|].
    eexists. split; [reflexivity|]. split; [reflexivity|].
    intros value location.
    rewrite (validate_ok_iff Location _ [(Some lo, Some up)]);
      [|reflexivity | repeat constructor; exact Hle | exact Hname].
    simpl. unfold insideb. simpl.
    rewrite orb_false_r, Z.geb_leb, andb_true_iff, !Z.leb_le. tauto.
  - intros Hgt. destruct (up <? lo) eqn:Hlt; [reflexivity | bool_to_Z; lia].
Qed.

Lemma interval_text_accepts_its_interval_witness :
  (-5 <= 40 ->
     exists r,
       Range_init example_names
         (Some (str_int (-5) ++ u "..." ++ str_int 40)) None = OK r /\
       items r = Some [(Some (-5), Some 40)] /\
       forall value (location : option unit),
         validate r (u "size") value location = OK tt <-> -5 <= value <= 40) /\
  (-5 > 40 ->
     Range_init example_names
       (Some (str_int (-5) ++ u "..." ++ str_int 40)) None
       = Raise (Interface (LowerGreaterThanUpper (-5) 40))).
Proof.
  apply (interval_text_accepts_its_interval unit example_names (-5) 40
           (u "size")).
  discriminate.
Defined.

Lemma Range_init_from_text names lo :
  Range_init names (Some (str_int lo ++ u "...")) None
  = OK (MkRange (Some (str_int lo ++ [8230])) (Some [(Some lo, None)])).
Proof.
  assert (Hrep : replace_dots (str_int lo ++ u "...") = str_int lo ++ [8230]).
  { rewrite replace_dots_after_str_int. reflexivity. }
  assert (Hstrip : strip_nonempty (str_int lo ++ [8230]) = true).
  { unfold strip_nonempty. rewrite existsb_app. simpl.
    rewrite orb_true_r. reflexivity. }
  rewrite Range_init_text
    by (rewrite <- strip_nonempty_replace_dots, Hrep; exact Hstrip).
  rewrite Hrep.
  assert (Htok : generate_tokens (str_int lo ++ [8230])
                 = num_tokens lo ++ [mk ERRORTOKEN ELLIPSIS; mk ENDMARKER []]).
  { unfold generate_tokens.
    assert (Hspan : span_len is_blank (str_int lo ++ [8230]) = O).
    { destruct (_repr_item_head (Some lo, None) (str_int lo ++ [58]) eq_refl)
        as (c & rest & Heq & Hblank & _).
      destruct (str_int lo) as [|c' s]; simpl in *.
      - reflexivity.
      - injection Heq as -> _. rewrite Hblank. reflexivity. }
    rewrite Hspan, take_0, drop_0. simpl andb. cbv iota.
    rewrite tokens_from_str_int_ellipsis, tokens_from_ellipsis.
    reflexivity. }
  rewrite Htok, tokens_loop_item_loop.
  rewrite item_loop_num_tokens by reflexivity.
  rewrite item_loop_ellipsis by reflexivity.
  rewrite item_loop_end by reflexivity. reflexivity.
Qed.

Lemma Range_init_up_to_text names up :
  Range_init names (Some (u "..." ++ str_int up)) None
  = OK (MkRange (Some (8230 :: str_int up)) (Some [(None, Some up)])).
Proof.
  assert (Hrep : replace_dots (u "..." ++ str_int up) = 8230 :: str_int up).
  { change (u "..." ++ str_int up) with (46 :: 46 :: 46 :: str_int up).
    rewrite replace_dots_cons. simpl three_dots. cbv iota.
    simpl drop. f_equal. rewrite drop_0.
    apply replace_dots_rendering, str_int_chars. }
  rewrite Range_init_text
    by (rewrite <- strip_nonempty_replace_dots, Hrep; reflexivity).
  rewrite Hrep.
  assert (Htok : generate_tokens (8230 :: str_int up)
                 = mk ERRORTOKEN ELLIPSIS :: num_tokens up
                   ++ [mk ENDMARKER []]).
  { unfold generate_tokens.
    change (span_len is_blank (8230 :: str_int up)) with O.
    rewrite take_0, drop_0. simpl andb. cbv iota.
    rewrite tokens_from_ellipsis.
    rewrite <- (app_nil_r (str_int up)) at 1.
    rewrite tokens_from_str_int by exact I.
    reflexivity. }
  rewrite Htok, tokens_loop_item_loop.
  rewrite item_loop_ellipsis by reflexivity.
  rewrite item_loop_num_tokens by reflexivity.
  rewrite item_loop_end by reflexivity. reflexivity.
Qed.

(** X21.  The half-open forms with an integer in decimal: "lower..."
    constructs the range with the single item (lower, None), which accepts
    exactly the values from lower on, and "...upper" the range with the
    single item (None, upper), which accepts exactly the values up to
    upper. *)
Theorem half_open_texts_accept_their_half_lines
    (Location : Type) names lo up name :
  name <> [] ->
  (exists r,
     Range_init names (Some (str_int lo ++ u "...")) None = OK r /\
     items r = Some [(Some lo, None)] /\
     forall value (location : option Location),
       validate r name value location = OK tt <-> lo <= value) /\
  (exists r,
     Range_init names (Some (u "..." ++ str_int up)) None = OK r /\
     items r = Some [(None, Some up)] /\
     forall value (location : option Location),
       validate r name value location = OK tt <-> value <= up).
Proof.
  intros Hname. split.
  - rewrite Range_init_from_text. eexists. split; [reflexivity|].
    split; [reflexivity|]. intros value location.
    rewrite (validate_ok_iff Location _ [(Some lo, None)]);
      [|reflexivity | repeat constructor | exact Hname].
    simpl. unfold insideb. simpl.
    rewrite orb_false_r, Z.geb_leb, Z.leb_le. tauto.
  - rewrite Range_init_up_to_text. eexists. split; [reflexivity|].
    split; [reflexivity|]. intros value location.
    rewrite (validate_ok_iff Location _ [(None, Some up)]);
      [|reflexivity | repeat constructor | exact Hname].
    simpl. unfold insideb. simpl.
    rewrite orb_false_r, Z.leb_le. tauto.
Qed.

Lemma half_open_texts_accept_their_half_lines_witness :
  (exists r,
     Range_init example_names (Some (str_int 40 ++ u "...")) None = OK r /\
     items r = Some [(Some 40, None)] /\
     forall value (location : option unit),
       validate r (u "size") value location = OK tt <-> 40 <= value) /\
  (exists r,
     Range_init example_names (Some (u "..." ++ str_int (-7))) None = OK r /\
     items r = Some [(None, Some (-7))] /\
     forall value (location : option unit),
       validate r (u "size") value location = OK tt <-> value <= -7).
Proof.
  apply (half_open_texts_accept_their_half_lines unit example_names 40 (-7)
           (u "size")).
  discriminate.
Defined.

(** X22.  A hyphen before a name or a quoted character never yields a
    range: the token is taken as a value and the hyphen stays pending, so
    that the construction fails whatever the tokens that follow. *)
Theorem hyphen_before_name_or_string_never_succeeds names its g t tokens :
  after_hyphen g = true ->
  ttype t = NAME \/ ttype t = STRING ->
  exists e, tokens_loop names its g (t :: tokens) = Raise e.
Proof. apply hyphen_then_name_or_string_fails. Qed.

Lemma hyphen_before_name_or_string_never_succeeds_witness :
  exists e,
    tokens_loop example_names [] (Group None None false true)
      (mk NAME (u "cr") :: [mk OP [58]; mk NUMBER (u "20"); mk ENDMARKER []])
    = Raise e.
Proof.
  apply (hyphen_before_name_or_string_never_succeeds example_names []
           (Group None None false true) (mk NAME (u "cr"))).
  - reflexivity.
  - left. reflexivity.
Defined.
